(** * mix_oklab: blending sRGB colours through the OKLab cone space

    A shallow embedding of [mix_oklab.ts] and the properties its specification
    states about it.

    ** Numbers

    A JavaScript [number] is an IEEE-754 binary64 value.  The embedding keeps
    the special values of that format ([NaN], [+Infinity], [-Infinity]) and
    the rules by which they arise and propagate, and takes every finite value
    to be the real number it denotes: finite arithmetic is exact, so rounding
    to 53 bits, overflow to an infinity and the sign of zero are not
    modelled.  A decimal literal of the source denotes the decimal it spells.
    [Math.pow] follows the case analysis of ECMAScript's
    [Number::exponentiate]; its generic case is the real power.

    Integers produced by the bit operators are 32-bit two's complement values,
    kept as [Z] with the wrap-around written out.

    ** Strings and counts

    A string is a row of code units below 256.  The midpoint count that the
    command-line layer hands to the handler is an integer that a number holds
    exactly; the loop counter then runs over integers. *)

From Stdlib Require Import Reals ZArith Lra Lia Bool List String Ascii.
From Stdlib Require DecimalString HexadecimalString.
From Equations Require Import Equations.
Import ListNotations.

Local Open Scope Z_scope.
Local Open Scope R_scope.

(** ** JavaScript numbers *)

Module JS.

Inductive number : Type :=
| Fin (x : R)
| PosInf
| NegInf
| NaN.

Definition Rleb (x y : R) : bool := if Rle_dec x y then true else false.
Definition Rltb (x y : R) : bool := if Rlt_dec x y then true else false.
Definition Reqb (x y : R) : bool := if Req_dec_T x y then true else false.

(** Truncation toward zero, the integer part that [ToInt32] keeps. *)
Definition trunc (x : R) : Z := if Rleb 0 x then Zfloor x else Zceil x.

Definition is_integer (x : R) : bool := Reqb (IZR (trunc x)) x.

Definition neg (a : number) : number :=
  match a with
  | Fin x => Fin (- x)
  | PosInf => NegInf
  | NegInf => PosInf
  | NaN => NaN
  end.

Definition add (a b : number) : number :=
  match a, b with
  | NaN, _ | _, NaN => NaN
  | PosInf, NegInf | NegInf, PosInf => NaN
  | PosInf, _ | _, PosInf => PosInf
  | NegInf, _ | _, NegInf => NegInf
  | Fin x, Fin y => Fin (x + y)
  end.

Definition sub (a b : number) : number := add a (neg b).

(** An infinity scaled by a finite factor: the sign rule, and [NaN] at zero. *)
Definition scale_inf (inf : number) (x : R) : number :=
  if Reqb x 0 then NaN else if Rltb 0 x then inf else neg inf.

Definition mul (a b : number) : number :=
  match a, b with
  | NaN, _ | _, NaN => NaN
  | Fin x, Fin y => Fin (x * y)
  | Fin x, PosInf | PosInf, Fin x => scale_inf PosInf x
  | Fin x, NegInf | NegInf, Fin x => scale_inf NegInf x
  | PosInf, PosInf | NegInf, NegInf => PosInf
  | PosInf, NegInf | NegInf, PosInf => NegInf
  end.

(** Division.  A zero divisor is read as [+0]. *)
Definition div (a b : number) : number :=
  match a, b with
  | NaN, _ | _, NaN => NaN
  | Fin x, Fin y =>
      if Reqb y 0
      then if Reqb x 0 then NaN else if Rltb 0 x then PosInf else NegInf
      else Fin (x / y)
  | Fin _, (PosInf | NegInf) => Fin 0
  | PosInf, Fin y => if Rleb 0 y then PosInf else NegInf
  | NegInf, Fin y => if Rleb 0 y then NegInf else PosInf
  | (PosInf | NegInf), (PosInf | NegInf) => NaN
  end.

(** The relational operator [<=]: false as soon as an operand is [NaN]. *)
Definition le (a b : number) : bool :=
  match a, b with
  | NaN, _ | _, NaN => false
  | Fin x, Fin y => Rleb x y
  | NegInf, _ | _, PosInf => true
  | PosInf, _ | _, NegInf => false
  end.

(** [Math.pow(base, exponent)], after [Number::exponentiate]. *)
Definition pow (base exponent : number) : number :=
  match exponent with
  | NaN => NaN
  | PosInf =>
      match base with
      | NaN => NaN
      | PosInf | NegInf => PosInf
      | Fin b =>
          if Rltb 1 (Rabs b) then PosInf
          else if Reqb (Rabs b) 1 then NaN else Fin 0
      end
  | NegInf =>
      match base with
      | NaN => NaN
      | PosInf | NegInf => Fin 0
      | Fin b =>
          if Rltb 1 (Rabs b) then Fin 0
          else if Reqb (Rabs b) 1 then NaN else PosInf
      end
  | Fin e =>
      if Reqb e 0 then Fin 1
      else
        match base with
        | NaN => NaN
        | PosInf => if Rltb 0 e then PosInf else Fin 0
        | NegInf =>
            if Rltb 0 e
            then if is_integer e && Z.odd (trunc e) then NegInf else PosInf
            else Fin 0
        | Fin b =>
            if Reqb b 0 then if Rltb 0 e then Fin 0 else PosInf
            else if Rltb 0 b then Fin (Rpower b e)
            else if is_integer e then Fin (powerRZ b (trunc e))
            else NaN
        end
  end.

(** ** 32-bit integers *)

Definition wrap32 (z : Z) : Z := ((z + 2 ^ 31) mod 2 ^ 32 - 2 ^ 31)%Z.

Definition ToInt32 (a : number) : Z :=
  match a with
  | Fin x => wrap32 (trunc x)
  | PosInf | NegInf | NaN => 0%Z
  end.

Definition of_int (z : Z) : number := Fin (IZR z).

(** [a << n], [a >> n], [a & b], [a | b] on 32-bit integers. *)
Definition shl (a n : Z) : Z := wrap32 (Z.shiftl a (n mod 32)).
Definition sar (a n : Z) : Z := Z.shiftr a (n mod 32).
Definition band (a b : Z) : Z := Z.land a b.
Definition bor (a b : Z) : Z := Z.lor a b.

(** [n.toString(16)] and [String(n)] at an integer [n] (in positional
    notation, as the language prints integers below [10^21]). *)
Definition toString16 (n : Z) : string :=
  HexadecimalString.NilZero.string_of_int (Z.to_hex_int n).
Definition toString10 (n : Z) : string :=
  DecimalString.NilZero.string_of_int (Z.to_int n).

End JS.

Export JS.

Declare Scope js_scope.
Delimit Scope js_scope with js.
Bind Scope js_scope with number.
Coercion Fin : R >-> number.
Infix "+" := add : js_scope.
Infix "-" := sub : js_scope.
Infix "*" := mul : js_scope.
Infix "/" := div : js_scope.
Infix "<=?" := le (at level 70, no associativity) : js_scope.
Infix "<<" := shl (at level 32, left associativity) : Z_scope.
Infix ">>" := sar (at level 32, left associativity) : Z_scope.
Infix ".&" := band (at level 33, left associativity) : Z_scope.
Infix ".|" := bor (at level 34, left associativity) : Z_scope.

(** ** Vectors and matrices *)

Record Vec3 : Type := V3 { ix0 : number; ix1 : number; ix2 : number }.
Record Mat3 : Type := M3 { row0 : Vec3; row1 : Vec3; row2 : Vec3 }.

Local Open Scope js_scope.

Definition mat3MultiplyVec3 (mat : Mat3) (vec : Vec3) : Vec3 :=
  V3 (ix0 (row0 mat) * ix0 vec + ix1 (row0 mat) * ix1 vec + ix2 (row0 mat) * ix2 vec)
     (ix0 (row1 mat) * ix0 vec + ix1 (row1 mat) * ix1 vec + ix2 (row1 mat) * ix2 vec)
     (ix0 (row2 mat) * ix0 vec + ix1 (row2 mat) * ix1 vec + ix2 (row2 mat) * ix2 vec).

Definition mix (a b : Vec3) (h : number) : Vec3 :=
  V3 (ix0 a * (1 - h) + ix0 b * h)
     (ix1 a * (1 - h) + ix1 b * h)
     (ix2 a * (1 - h) + ix2 b * h).

Definition powVec3 (vec : Vec3) (exp : number) : Vec3 :=
  V3 (pow (ix0 vec) exp) (pow (ix1 vec) exp) (pow (ix2 vec) exp).

Definition kCONEtoLMS : Mat3 :=
  M3 (V3 0.4121656120 0.2118591070 0.0883097947)
     (V3 0.5362752080 0.6807189584 0.2818474174)
     (V3 0.0514575653 0.1074065790 0.6302613616).

Definition kLMStoCONE : Mat3 :=
  M3 (V3 4.0767245293 (-1.2681437731) (-0.0041119885))
     (V3 (-3.3072168827) 2.6093323231 (-0.7034763098))
     (V3 0.2307590544 (-0.3411344290) 1.7068625689).

Definition oklabMix (colA colB : Vec3) (h : number) : Vec3 :=
  let lmsA := powVec3 (mat3MultiplyVec3 kCONEtoLMS colA) (1.0 / 3.0) in
  let lmsB := powVec3 (mat3MultiplyVec3 kCONEtoLMS colB) (1.0 / 3.0) in
  let lms := mix lmsA lmsB h in
  mat3MultiplyVec3 kLMStoCONE
    (V3 (ix0 lms * ix0 lms * ix0 lms)
        (ix1 lms * ix1 lms * ix1 lms)
        (ix2 lms * ix2 lms * ix2 lms)).

Definition linearRGBtoHex (rgb : Vec3) : Z :=
  let r := ix0 rgb in
  let g := ix1 rgb in
  let b := ix2 rgb in
  let r := if r <=? 0.0031308 then r * 12.92 else 1.055 * pow r (1 / 2.4) - 0.055 in
  let g := if g <=? 0.0031308 then g * 12.92 else 1.055 * pow g (1 / 2.4) - 0.055 in
  let b := if b <=? 0.0031308 then b * 12.92 else 1.055 * pow b (1 / 2.4) - 0.055 in
  let r := (ToInt32 (r * 255%R + 0.5%R) .| 0)%Z in
  let g := (ToInt32 (g * 255%R + 0.5%R) .| 0)%Z in
  let b := (ToInt32 (b * 255%R + 0.5%R) .| 0)%Z in
  ((r << 16) .| (g << 8) .| b)%Z.

Definition hexToLinearRGB (hex : number) : Vec3 :=
  let r := of_int ((ToInt32 hex >> 16) .& 0xFF)%Z in
  let g := of_int ((ToInt32 hex >> 8) .& 0xFF)%Z in
  let b := of_int (ToInt32 hex .& 0xFF)%Z in
  let r := r / 255 in
  let g := g / 255 in
  let b := b / 255 in
  let r := if r <=? 0.04045 then r / 12.92 else pow ((r + 0.055) / 1.055) 2.4 in
  let g := if g <=? 0.04045 then g / 12.92 else pow ((g + 0.055) / 1.055) 2.4 in
  let b := if b <=? 0.04045 then b / 12.92 else pow ((b + 0.055) / 1.055) 2.4 in
  V3 r g b.

Definition hexToString (hex : number) : string :=
  let r := ((ToInt32 hex >> 16) .& 0xFF)%Z in
  let g := ((ToInt32 hex >> 8) .& 0xFF)%Z in
  let b := (ToInt32 hex .& 0xFF)%Z in
  ("#" ++
   ((if (r <? 16)%Z then "0" else "") ++ toString16 r) ++
   ((if (g <? 16)%Z then "0" else "") ++ toString16 g) ++
   ((if (b <? 16)%Z then "0" else "") ++ toString16 b))%string.

(** ** Strings, [parseInt] and the format pattern *)

Local Open Scope string_scope.

(** A thrown [Error] carries its message. *)
Inductive result (A : Type) : Type :=
| Ok (value : A)
| Throw (message : string).
Arguments Ok {A} value.
Arguments Throw {A} message.

Definition code (c : ascii) : Z := Z.of_nat (nat_of_ascii c).

Definition inRange (c lo hi : ascii) : bool :=
  ((code lo <=? code c) && (code c <=? code hi))%Z.

(** The white space that [parseInt] skips, among the code units below 256. *)
Definition isWhiteSpace (c : ascii) : bool :=
  ((9 <=? code c) && (code c <=? 13) || (code c =? 32) || (code c =? 160))%Z.

Fixpoint trimStart (s : string) : string :=
  match s with
  | String c t => if isWhiteSpace c then trimStart t else s
  | EmptyString => s
  end.

(** The value of a digit in a radix up to 36. *)
Definition digitValue (c : ascii) : option Z :=
  if inRange c "0" "9" then Some (code c - 48)%Z
  else if inRange c "A" "Z" then Some (code c - 55)%Z
  else if inRange c "a" "z" then Some (code c - 87)%Z
  else None.

(** Reads the longest prefix of digits of radix [R], most significant first;
    [None] when there is no digit at all. *)
Fixpoint readDigits (R : Z) (s : string) (acc : option Z) : option Z :=
  match s with
  | String c t =>
      match digitValue c with
      | Some d =>
          if (d <? R)%Z
          then readDigits R t (Some (match acc with Some a => a * R + d | None => d end)%Z)
          else acc
      | None => acc
      end
  | EmptyString => acc
  end.

(** The prefix [0x] or [0X] that [parseInt] drops in radix 16. *)
Definition stripHexPrefix (s : string) : option string :=
  match s with
  | String c0 (String c1 t) =>
      if (c0 =? "0")%char && ((c1 =? "x")%char || (c1 =? "X")%char)
      then Some t else None
  | _ => None
  end.

Definition parseInt (str : string) (radix : Z) : number :=
  let rest := trimStart str in
  let '(sign, rest) :=
    match rest with
    | String c t =>
        if (c =? "-")%char then ((-1)%Z, t)
        else if (c =? "+")%char then (1%Z, t)
        else (1%Z, rest)
    | EmptyString => (1%Z, rest)
    end in
  let R := wrap32 radix in
  if ((R =? 0) || (2 <=? R) && (R <=? 36))%Z
  then
    let '(R, rest) :=
      if ((R =? 0) || (R =? 16))%Z
      then match stripHexPrefix rest with
           | Some t => (16%Z, t)
           | None => ((if (R =? 0)%Z then 10 else R)%Z, rest)
           end
      else (R, rest) in
    match readDigits R rest None with
    | Some v => of_int (sign * v)
    | None => NaN
    end
  else NaN.

(** Regular expressions over code units, matched by derivatives.  The only
    pattern of the program is anchored at both ends and has no flags, so
    [test] is a match of the whole input. *)
Module RegExp.

Inductive regex : Type :=
| Never
| Empty
| Class (ranges : list (ascii * ascii))
| Seq (r s : regex)
| Alt (r s : regex).

Definition Opt (r : regex) : regex := Alt r Empty.

Fixpoint Rep (n : nat) (r : regex) : regex :=
  match n with
  | O => Empty
  | S k => Seq r (Rep k r)
  end.

Definition inClass (ranges : list (ascii * ascii)) (c : ascii) : bool :=
  existsb (fun lh => inRange c (fst lh) (snd lh)) ranges.

Fixpoint nullable (r : regex) : bool :=
  match r with
  | Never => false
  | Empty => true
  | Class _ => false
  | Seq r s => nullable r && nullable s
  | Alt r s => nullable r || nullable s
  end.

Fixpoint deriv (c : ascii) (r : regex) : regex :=
  match r with
  | Never | Empty => Never
  | Class ranges => if inClass ranges c then Empty else Never
  | Seq r s =>
      if nullable r
      then Alt (Seq (deriv c r) s) (deriv c s)
      else Seq (deriv c r) s
  | Alt r s => Alt (deriv c r) (deriv c s)
  end.

Fixpoint test (r : regex) (s : string) : bool :=
  match s with
  | EmptyString => nullable r
  | String c t => test (deriv c r) t
  end.

End RegExp.

(** [/^#?[0-9A-Fa-f]{6}$/] *)
Definition hexPattern : RegExp.regex :=
  RegExp.Seq
    (RegExp.Opt (RegExp.Class [("#"%char, "#"%char)]))
    (RegExp.Rep 6
       (RegExp.Class
          [("0"%char, "9"%char); ("A"%char, "F"%char); ("a"%char, "f"%char)])).

Definition slice1 (s : string) : string :=
  match s with
  | String _ t => t
  | EmptyString => EmptyString
  end.

Definition stringToHex (hexStr : string) : result number :=
  if negb (RegExp.test hexPattern hexStr)
  then Throw "Invalid hex color format."
  else
    let hexStr :=
      match String.get 0 hexStr with
      | Some c => if (c =? "#")%char then slice1 hexStr else hexStr
      | None => hexStr
      end in
    Ok (parseInt hexStr 16).

(** ** The command *)

(** What one turn of the loop computes. *)
Record Swatch : Type := mkSwatch {
  color : Vec3;
  hexColor : Z;
  hexString : string;
  ansiBlock : string
}.

Definition esc : string := String (ascii_of_nat 27) "".

Definition swatch (Start End : Vec3) (midpoints i : Z) : Swatch :=
  let color := oklabMix Start End (of_int i / of_int midpoints) in
  let hexColor := linearRGBtoHex color in
  let hexString := hexToString (of_int hexColor) in
  let r := ((hexColor >> 16) .& 0xFF)%Z in
  let g := ((hexColor >> 8) .& 0xFF)%Z in
  let b := (hexColor .& 0xFF)%Z in
  let ansiBlock :=
    esc ++ "[48;2;" ++ toString10 r ++ ";" ++ toString10 g ++ ";" ++ toString10 b
        ++ "m    " ++ esc ++ "[0m" in
  mkSwatch color hexColor hexString ansiBlock.

(** The line the loop logs for a swatch. *)
Definition swatchLine (s : Swatch) : string := ansiBlock s ++ " " ++ hexString s.

(** [for (let i = 0; i <= midpoints; i++)], started at any [i]. *)
Equations? loop (Start End : Vec3) (midpoints i : Z) : list Swatch
  by wf (Z.to_nat (midpoints + 1 - i)) lt :=
  loop Start End midpoints i with Z_le_gt_dec i midpoints => {
    | left _ := swatch Start End midpoints i :: loop Start End midpoints (i + 1);
    | right _ := [] }.
Proof. lia. Qed.

(** The command's handler: what it writes to the console, or the error it
    throws.  The count the command-line layer passes is an integer, absent
    when the user gave none. *)
Definition call (start end_ : string) (midpoints : option Z) : result (list string) :=
  match stringToHex start with
  | Throw e => Throw e
  | Ok hexStart =>
      let Start := hexToLinearRGB hexStart in
      match stringToHex end_ with
      | Throw e => Throw e
      | Ok hexEnd =>
          let End := hexToLinearRGB hexEnd in
          let midpoints := match midpoints with Some m => m | None => 1%Z end in
          let header :=
            [ "Start: " ++ start; "End: " ++ end_; "Midpoints: " ++ toString10 midpoints ] in
          let midpoints := (midpoints + 1)%Z in
          Ok (header ++ map swatchLine (loop Start End midpoints 0))%list
      end
  end.

(** * Vocabulary of the properties

    The predicates the properties are stated with, and reference definitions
    that the properties compare with the program: [parse_hex_string],
    [linear_to_hex], [srgb_encode] and [srgb_decode] follow the
    specification's wording, and the real-valued readings of the matrices and
    of the blend are what the program computes at finite numbers. *)

(** ** Canonical colour strings *)

Definition hexChar (d : Z) : ascii :=
  match String.get (Z.to_nat d) "0123456789abcdef" with
  | Some c => c
  | None => "0"%char
  end.

Definition isLowerHexDigit (c : ascii) : bool :=
  inRange c "0" "9" || inRange c "a" "f".

(** Two lowercase digits for a byte, the high one first. *)
Definition hexByte (n : Z) (tail : string) : string :=
  String (hexChar (n / 16)) (String (hexChar (n mod 16)) tail).

Definition paddedByte (r : Z) : string :=
  (if (r <? 16)%Z then "0" else "") ++ toString16 r.

(** ** Colour strings accepted on input *)

Definition InvalidFormat : result number := Throw "Invalid hex color format.".

Definition isHexDigit (c : ascii) : bool :=
  inRange c "0" "9" || inRange c "A" "F" || inRange c "a" "f".

(** The value of a hexadecimal digit, in either case. *)
Definition hexDigitValue (c : ascii) : Z :=
  (if inRange c "0" "9" then code c - 48
   else if inRange c "A" "F" then code c - 65 + 10
   else code c - 97 + 10)%Z.

(** The number a row of hexadecimal digits spells, most significant first. *)
Definition hexValue (ds : list ascii) : Z :=
  fold_left (fun acc c => 16 * acc + hexDigitValue c)%Z ds 0%Z.

(** The digits of a colour string: what follows the optional ['#']. *)
Definition colourDigits (s : string) : list ascii :=
  match s with
  | String c t => if (c =? "#")%char then list_ascii_of_string t else list_ascii_of_string s
  | EmptyString => []
  end.

(** An optional leading ['#'], then exactly six hexadecimal digits. *)
Definition wellFormed (s : string) : bool :=
  (List.length (colourDigits s) =? 6)%nat && forallb isHexDigit (colourDigits s).

Definition parse_hex_string (s : string) : result number :=
  if wellFormed s then Ok (of_int (hexValue (colourDigits s))) else InvalidFormat.

(** The strings a regular expression denotes. *)
Inductive Matches : RegExp.regex -> string -> Prop :=
| MEmpty : Matches RegExp.Empty ""
| MClass ranges c :
    RegExp.inClass ranges c = true -> Matches (RegExp.Class ranges) (String c "")
| MSeq r s u v : Matches r u -> Matches s v -> Matches (RegExp.Seq r s) (u ++ v)
| MAltL r s u : Matches r u -> Matches (RegExp.Alt r s) u
| MAltR r s u : Matches s u -> Matches (RegExp.Alt r s) u.

(** ** Colours in gamut and closeness *)

(** A linear-RGB colour is in gamut when its channels are finite and lie in
    the unit interval. *)
Definition inUnit (a : number) : Prop :=
  match a with
  | Fin x => (0 <= x <= 1)%R
  | _ => False
  end.

Definition inGamut (c : Vec3) : Prop :=
  inUnit (ix0 c) /\ inUnit (ix1 c) /\ inUnit (ix2 c).

(** Two numbers agree within a tolerance: both finite, at distance at most
    [tol].  [NaN] and the infinities are close to nothing. *)
Definition within (tol : R) (a b : number) : Prop :=
  match a, b with
  | Fin x, Fin y => (Rabs (x - y) <= tol)%R
  | _, _ => False
  end.

Definition withinVec (tol : R) (u v : Vec3) : Prop :=
  within tol (ix0 u) (ix0 v) /\ within tol (ix1 u) (ix1 v) /\ within tol (ix2 u) (ix2 v).

(** ** The transfer functions on real numbers *)

(** [srgb_decode] and [srgb_encode] of the specification, and the cube root
    of the mixing engine, at finite arguments. *)
Definition srgb_decode (c : R) : R :=
  if Rleb c 0.04045 then (c / 12.92)%R else Rpower ((c + 0.055) / 1.055) 2.4.

Definition srgb_encode (c : R) : R :=
  if Rleb c 0.0031308 then (c * 12.92)%R else (1.055 * Rpower c (1 / 2.4) - 0.055)%R.

Definition cbrt (x : R) : R := if Reqb x 0 then 0%R else Rpower x (1.0 / 3.0).

(** Scaling an encoded channel by 255, adding one half and cutting the
    fraction off toward zero; the cut is the conversion to a 32-bit integer. *)
Definition quantise (e : number) : Z := ToInt32 (e * 255%R + 0.5%R).

(** Packing three channels by shift and or. *)
Definition pack (r g b : Z) : Z := ((r << 16) .| (g << 8) .| b)%Z.

(** The channels of a packed colour. *)
Definition redOf (hex : Z) : Z := ((hex >> 16) .& 0xFF)%Z.
Definition greenOf (hex : Z) : Z := ((hex >> 8) .& 0xFF)%Z.
Definition blueOf (hex : Z) : Z := (hex .& 0xFF)%Z.

(** [linear_to_hex] as the specification words it: encode each channel,
    quantise it, pack the three results; nothing clamps them. *)
Definition encodeChannel (c : number) : number :=
  (if c <=? 0.0031308 then c * 12.92 else 1.055 * pow c (1 / 2.4) - 0.055)%js.

Definition linear_to_hex (c : Vec3) : Z :=
  pack (quantise (encodeChannel (ix0 c)))
       (quantise (encodeChannel (ix1 c)))
       (quantise (encodeChannel (ix2 c))).

(** ** The mixing engine on real numbers *)

(** The rows of [CONE_TO_LMS] and [LMS_TO_CONE], linear interpolation and the
    cube, at finite arguments. *)
Definition cone0 (r g b : R) : R := (0.4121656120 * r + 0.2118591070 * g + 0.0883097947 * b)%R.
Definition cone1 (r g b : R) : R := (0.5362752080 * r + 0.6807189584 * g + 0.2818474174 * b)%R.
Definition cone2 (r g b : R) : R := (0.0514575653 * r + 0.1074065790 * g + 0.6302613616 * b)%R.

Definition lin0 (l m s : R) : R := (4.0767245293 * l + -1.2681437731 * m + -0.0041119885 * s)%R.
Definition lin1 (l m s : R) : R := (-3.3072168827 * l + 2.6093323231 * m + -0.7034763098 * s)%R.
Definition lin2 (l m s : R) : R := (0.2307590544 * l + -0.3411344290 * m + 1.7068625689 * s)%R.

Definition lerp (x y h : R) : R := (x * (1 - h) + y * h)%R.
Definition cube (x : R) : R := (x * x * x)%R.

(** The cone response of two colours blended at ratio [h], one component. *)
Definition blend (x y h : R) : R := cube (lerp (cbrt x) (cbrt y) h).

(** ** Negative cone responses *)

Definition component (k : nat) (v : Vec3) : number :=
  match k with
  | O => ix0 v
  | S O => ix1 v
  | _ => ix2 v
  end.

(** [a < 0] as the language decides it: true at [-Infinity] too. *)
Definition isNegative (a : number) : Prop :=
  match a with
  | Fin x => (x < 0)%R
  | NegInf => True
  | _ => False
  end.


(** The cone response of a colour and its cube root, as [oklabMix] computes
    them. *)
Definition coneResponse (c : Vec3) : Vec3 := mat3MultiplyVec3 kCONEtoLMS c.
Definition cubeRootStep (c : Vec3) : Vec3 := powVec3 (coneResponse c) (1.0 / 3.0)%js.

(** ** The interpolation driver *)

(** [generate_sequence] of the specification: the swatches the handler
    computes for two packed endpoints and a midpoint count, in order. *)
Definition generate_sequence (startHex endHex midpointCount : Z) : list Swatch :=
  loop (hexToLinearRGB (of_int startHex)) (hexToLinearRGB (of_int endHex))
       (midpointCount + 1) 0.

(** The three lines the handler logs before the swatches. *)
Definition preamble (start end_ : string) (midpoints : Z) : list string :=
  [ "Start: " ++ start; "End: " ++ end_; "Midpoints: " ++ toString10 midpoints ].

(** ** Canonical form of a colour string *)

(** The lowercase form of a code unit: the letters [A] to [Z] move to [a] to
    [z], every other code unit stays. *)
Definition lowerChar (c : ascii) : ascii :=
  if inRange c "A" "Z" then ascii_of_nat (nat_of_ascii c + 32) else c.

Fixpoint lowerString (s : string) : string :=
  match s with
  | String c t => String (lowerChar c) (lowerString t)
  | EmptyString => EmptyString
  end.

(** The canonical output form: ['#'], then the digits in lowercase. *)
Definition canonical (s : string) : string :=
  String "#" (string_of_list_ascii (map lowerChar (colourDigits s))).

(** ** Finite colours *)

(** A colour all of whose channels are finite numbers. *)
Definition finiteVec (v : Vec3) : Prop :=
  exists a b c : R, v = V3 (Fin a) (Fin b) (Fin c).

(** * Properties *)

(** ** Comparisons, truncation and 32-bit wrap-around *)

Section Numbers.

Lemma Rleb_true (x y : R) : (x <= y)%R -> Rleb x y = true.
Proof. unfold Rleb. destruct (Rle_dec x y); tauto. Qed.

Lemma Rleb_false (x y : R) : (y < x)%R -> Rleb x y = false.
Proof. unfold Rleb. destruct (Rle_dec x y); [lra | reflexivity]. Qed.

Lemma Rltb_true (x y : R) : (x < y)%R -> Rltb x y = true.
Proof. unfold Rltb. destruct (Rlt_dec x y); tauto. Qed.


Lemma Reqb_true (x y : R) : x = y -> Reqb x y = true.
Proof. unfold Reqb. destruct (Req_dec_T x y); tauto. Qed.

Lemma Reqb_false (x y : R) : x <> y -> Reqb x y = false.
Proof. unfold Reqb. destruct (Req_dec_T x y); tauto. Qed.

Lemma trunc_nonneg (x : R) (k : Z) :
  (0 <= x)%R -> (IZR k <= x < IZR k + 1)%R -> trunc x = k.
Proof.
  intros Hx Hk. unfold trunc. rewrite Rleb_true by exact Hx.
  apply Zfloor_eq. exact Hk.
Qed.

Lemma trunc_neg (x : R) (k : Z) :
  (x < 0)%R -> (IZR k - 1 < x <= IZR k)%R -> trunc x = k.
Proof.
  intros Hx Hk. unfold trunc. rewrite Rleb_false by exact Hx.
  unfold Zceil. rewrite (Zfloor_eq (- k) (- x)); [lia |].
  rewrite opp_IZR. lra.
Qed.

Lemma trunc_IZR (z : Z) : trunc (IZR z) = z.
Proof.
  unfold trunc, Zceil. rewrite <- opp_IZR, !ZfloorZ.
  destruct (Rleb 0 (IZR z)); lia.
Qed.

Lemma wrap32_small (z : Z) : (- 2 ^ 31 <= z < 2 ^ 31)%Z -> wrap32 z = z.
Proof. intros H. unfold wrap32. rewrite Z.mod_small; lia. Qed.

Lemma wrap32_range (z : Z) : (- 2 ^ 31 <= wrap32 z < 2 ^ 31)%Z.
Proof.
  unfold wrap32. pose proof (Z.mod_pos_bound (z + 2 ^ 31) (2 ^ 32)). lia.
Qed.

Lemma wrap32_congr (z : Z) : exists k : Z, wrap32 z = (z + k * 2 ^ 32)%Z.
Proof.
  exists (- ((z + 2 ^ 31) / 2 ^ 32))%Z. unfold wrap32.
  pose proof (Z.div_mod (z + 2 ^ 31) (2 ^ 32)). lia.
Qed.

Lemma ToInt32_of_int (z : Z) : ToInt32 (of_int z) = wrap32 z.
Proof. unfold ToInt32, of_int. rewrite trunc_IZR. reflexivity. Qed.

(** A channel read by shift and mask is a base-256 digit of the integer,
    whatever its size or sign. *)
Lemma channel_digit (z n : Z) :
  (0 <= n <= 24)%Z ->
  ((wrap32 z >> n) .& 0xFF)%Z = ((z / 2 ^ n) mod 256)%Z.
Proof.
  intros Hn. unfold sar, band.
  rewrite (Z.mod_small n 32) by lia.
  change 255%Z with (Z.ones 8). rewrite Z.land_ones by lia.
  rewrite Z.shiftr_div_pow2 by lia.
  destruct (wrap32_congr z) as [k ->].
  assert (E : (2 ^ 32 = 2 ^ (24 - n) * 2 ^ 8 * 2 ^ n)%Z).
  { rewrite <- !Z.pow_add_r by lia. f_equal. lia. }
  rewrite E.
  replace (z + k * (2 ^ (24 - n) * 2 ^ 8 * 2 ^ n))%Z
    with (z + (k * 2 ^ (24 - n) * 2 ^ 8) * 2 ^ n)%Z by ring.
  rewrite Z.div_add by (apply Z.pow_nonzero; lia).
  change (2 ^ 8)%Z with 256%Z. apply Z.mod_add. lia.
Qed.

Lemma channel_range (z n : Z) : (0 <= ((z >> n) .& 0xFF) < 256)%Z.
Proof.
  unfold band. change 255%Z with (Z.ones 8). rewrite Z.land_ones by lia.
  apply Z.mod_pos_bound. lia.
Qed.

End Numbers.

(** ** Formatting a packed colour *)

Section Format.

Lemma below_forallb (P : Z -> bool) (n : nat) :
  forallb P (map Z.of_nat (seq 0 n)) = true ->
  forall z : Z, (0 <= z < Z.of_nat n)%Z -> P z = true.
Proof.
  intros H z Hz. rewrite forallb_forall in H. apply H.
  apply in_map_iff. exists (Z.to_nat z). split; [lia |].
  apply in_seq. lia.
Qed.

Lemma paddedByte_digits (r : Z) :
  (0 <= r < 256)%Z -> paddedByte r = hexByte r "".
Proof.
  intros Hr. apply String.eqb_eq.
  apply (below_forallb (fun r => String.eqb (paddedByte r) (hexByte r "")) 256);
    [vm_compute; reflexivity | lia].
Qed.

Lemma hexChar_lower (d : Z) : isLowerHexDigit (hexChar d) = true.
Proof.
  destruct (Z.to_nat d) as [|n] eqn:E; unfold hexChar; rewrite E;
    [reflexivity |].
  do 15 (destruct n as [|n]; [reflexivity |]). reflexivity.
Qed.

Lemma append_hexByte (n : Z) (s t : string) : hexByte n s ++ t = hexByte n (s ++ t).
Proof. reflexivity. Qed.

Lemma digit_of_low24 (z n : Z) :
  (0 <= n <= 16)%Z -> ((z mod 2 ^ 24 / 2 ^ n) mod 256 = (z / 2 ^ n) mod 256)%Z.
Proof.
  intros Hn.
  assert (E : (2 ^ 24 = 2 ^ (16 - n) * 2 ^ 8 * 2 ^ n)%Z).
  { rewrite <- !Z.pow_add_r by lia. f_equal. lia. }
  rewrite (Z.div_mod z (2 ^ 24)) at 2 by lia.
  rewrite E at 2.
  replace (2 ^ (16 - n) * 2 ^ 8 * 2 ^ n * (z / 2 ^ 24) + z mod 2 ^ 24)%Z
    with (z mod 2 ^ 24 + (z / 2 ^ 24 * 2 ^ (16 - n) * 2 ^ 8) * 2 ^ n)%Z by ring.
  rewrite Z.div_add by (apply Z.pow_nonzero; lia).
  change (2 ^ 8)%Z with 256%Z. symmetry. apply Z.mod_add. lia.
Qed.

Lemma hexToString_digits (z : Z) :
  hexToString (of_int z) =
  String "#" (hexByte ((z / 2 ^ 16) mod 256)
             (hexByte ((z / 2 ^ 8) mod 256)
             (hexByte (z mod 256) ""))).
Proof.
  unfold hexToString. rewrite ToInt32_of_int.
  fold (paddedByte ((wrap32 z >> 16) .& 0xFF)%Z).
  fold (paddedByte ((wrap32 z >> 8) .& 0xFF)%Z).
  fold (paddedByte (wrap32 z .& 0xFF)%Z).
  assert (E0 : (wrap32 z .& 0xFF = z mod 256)%Z).
  { pose proof (channel_digit z 0) as H. unfold sar in H.
    rewrite Z.mod_0_l, Z.shiftr_0_r in H by lia. rewrite H by lia.
    rewrite Z.pow_0_r, Z.div_1_r. reflexivity. }
  rewrite E0, !channel_digit by lia.
  rewrite !paddedByte_digits by (apply Z.mod_pos_bound; lia).
  reflexivity.
Qed.

End Format.

(** C10.  [hexToString] masks every channel with [0xFF] before it formats
    it.  So at every integer, in or out of the 24-bit range and of either
    sign, the result is ['#'] followed by exactly six lowercase hexadecimal
    digits, the two-digit forms of the three low bytes of the integer, and it
    is the result at the low 24 bits of the integer. *)
Theorem hexToString_low24 (z : Z) :
  hexToString (of_int z) =
    String "#" (hexByte ((z / 2 ^ 16) mod 256)
               (hexByte ((z / 2 ^ 8) mod 256)
               (hexByte (z mod 256) "")))
  /\ (exists ds : list ascii,
        hexToString (of_int z) = String "#" (string_of_list_ascii ds)
        /\ List.length ds = 6%nat
        /\ forallb isLowerHexDigit ds = true)
  /\ hexToString (of_int z) = hexToString (of_int (z mod 2 ^ 24)).
Proof.
  split; [apply hexToString_digits |]. split.
  - rewrite hexToString_digits. unfold hexByte.
    eexists [_; _; _; _; _; _]. split; [reflexivity |]. split; [reflexivity |].
    cbn [forallb]. rewrite !hexChar_lower. reflexivity.
  - rewrite !hexToString_digits.
    rewrite (digit_of_low24 z 16), (digit_of_low24 z 8) by lia.
    pose proof (digit_of_low24 z 0) as H.
    rewrite Z.pow_0_r, !Z.div_1_r in H. rewrite H by lia. reflexivity.
Qed.

(** ** The derivative matcher decides the denoted language *)

Module RegExpFacts.
Import RegExp.

Lemma Matches_Never_inv w : Matches Never w -> False.
Proof. intros H. inversion H. Qed.

Lemma Matches_Empty_inv w : Matches Empty w -> w = "".
Proof. intros H. inversion H. reflexivity. Qed.

Lemma Matches_Class_inv ranges w :
  Matches (Class ranges) w -> exists c, w = String c "" /\ inClass ranges c = true.
Proof. intros H. inversion H; subst. eauto. Qed.

Lemma Matches_Seq_inv r s w :
  Matches (Seq r s) w -> exists u v, w = u ++ v /\ Matches r u /\ Matches s v.
Proof. intros H. inversion H; subst. eauto. Qed.

Lemma Matches_Alt_inv r s w : Matches (Alt r s) w -> Matches r w \/ Matches s w.
Proof. intros H. inversion H; subst; auto. Qed.

Lemma append_empty (u v : string) : u ++ v = "" -> u = "" /\ v = "".
Proof. destruct u; simpl; [auto | discriminate]. Qed.

Lemma nullable_Matches r : nullable r = true <-> Matches r "".
Proof.
  induction r as [| | ranges | r IHr s IHs | r IHr s IHs]; simpl.
  - split; [discriminate | intros H; destruct (Matches_Never_inv _ H)].
  - split; [intros _; constructor | reflexivity].
  - split; [discriminate |].
    intros H. apply Matches_Class_inv in H as (c & E & _). discriminate.
  - rewrite andb_true_iff, IHr, IHs. split.
    + intros [Hr Hs]. change "" with ("" ++ ""). constructor; assumption.
    + intros H. apply Matches_Seq_inv in H as (u & v & E & Hu & Hv).
      symmetry in E. apply append_empty in E as [-> ->]. auto.
  - rewrite orb_true_iff, IHr, IHs. split.
    + intros [H | H]; [apply MAltL | apply MAltR]; exact H.
    + apply Matches_Alt_inv.
Qed.

Lemma deriv_Matches c r : forall w, Matches (deriv c r) w <-> Matches r (String c w).
Proof.
  induction r as [| | ranges | r IHr s IHs | r IHr s IHs]; intros w; simpl.
  - split; intros H; destruct (Matches_Never_inv _ H).
  - split; intros H; [destruct (Matches_Never_inv _ H) |].
    apply Matches_Empty_inv in H. discriminate.
  - destruct (inClass ranges c) eqn:Hc; split; intros H.
    + apply Matches_Empty_inv in H. subst. constructor. exact Hc.
    + apply Matches_Class_inv in H as (c' & E & _). injection E as _ ->. constructor.
    + destruct (Matches_Never_inv _ H).
    + apply Matches_Class_inv in H as (c' & E & Hc'). injection E as <- _.
      congruence.
  - assert (Hcons : Matches (Seq (deriv c r) s) w ->
                    Matches (Seq r s) (String c w)).
    { intros H. apply Matches_Seq_inv in H as (u & v & -> & Hu & Hv).
      change (String c (u ++ v)) with (String c u ++ v).
      constructor; [apply IHr; exact Hu | exact Hv]. }
    assert (Hskip : Matches r "" -> Matches (deriv c s) w ->
                    Matches (Seq r s) (String c w)).
    { intros Hr H. change (String c w) with ("" ++ String c w).
      constructor; [exact Hr | apply IHs; exact H]. }
    assert (Hinv : Matches (Seq r s) (String c w) ->
                   Matches (Seq (deriv c r) s) w \/
                   (Matches r "" /\ Matches (deriv c s) w)).
    { intros H. apply Matches_Seq_inv in H as (u & v & E & Hu & Hv).
      destruct u as [| c' u]; simpl in E.
      - right. subst v. split; [exact Hu | apply IHs; exact Hv].
      - injection E as <- ->. left. constructor; [apply IHr; exact Hu | exact Hv]. }
    destruct (nullable r) eqn:Hn; split.
    + intros H. apply Matches_Alt_inv in H as [H | H]; [auto |].
      apply Hskip; [apply nullable_Matches; exact Hn | exact H].
    + intros H. apply Hinv in H as [H | [_ H]]; [apply MAltL | apply MAltR]; exact H.
    + exact Hcons.
    + intros H. apply Hinv in H as [H | [Hr _]]; [exact H |].
      apply nullable_Matches in Hr. congruence.
  - split; intros H.
    + apply Matches_Alt_inv in H as [H | H];
        [apply MAltL, IHr | apply MAltR, IHs]; exact H.
    + apply Matches_Alt_inv in H as [H | H];
        [apply MAltL, IHr | apply MAltR, IHs]; exact H.
Qed.

Lemma test_Matches s : forall r, test r s = true <-> Matches r s.
Proof.
  induction s as [| c s IH]; intros r; simpl.
  - apply nullable_Matches.
  - rewrite IH. apply deriv_Matches.
Qed.

(** A class repeated [n] times denotes the rows of [n] members. *)
Lemma Matches_Rep_Class ranges n : forall w,
  Matches (Rep n (Class ranges)) w <->
  List.length (list_ascii_of_string w) = n /\
  forallb (inClass ranges) (list_ascii_of_string w) = true.
Proof.
  induction n as [| n IH]; intros w; simpl.
  - split.
    + intros H. apply Matches_Empty_inv in H. subst. auto.
    + intros [H _]. destruct w; [constructor | discriminate].
  - split.
    + intros H. apply Matches_Seq_inv in H as (u & v & -> & Hu & Hv).
      apply Matches_Class_inv in Hu as (c & -> & Hc). apply IH in Hv as [Hl Hf].
      simpl. rewrite Hc, Hl, Hf. auto.
    + intros [Hl Hf]. destruct w as [| c w]; [discriminate |].
      simpl in Hl, Hf. apply andb_true_iff in Hf as [Hc Hf].
      change (String c w) with (String c "" ++ w).
      constructor; [constructor; exact Hc | apply IH; split; [lia | exact Hf]].
Qed.

End RegExpFacts.

(** ** Parsing a colour string *)

Section Parse.

Ltac ascii_cases c := destruct c as [[] [] [] [] [] [] [] []].

Lemma hexDigit_facts (c : ascii) :
  isHexDigit c = true ->
  isWhiteSpace c = false
  /\ (c =? "-")%char = false /\ (c =? "+")%char = false
  /\ (c =? "x")%char = false /\ (c =? "X")%char = false
  /\ (c =? "#")%char = false
  /\ digitValue c = Some (hexDigitValue c)
  /\ (hexDigitValue c <? 16)%Z = true
  /\ (0 <= hexDigitValue c)%Z.
Proof.
  ascii_cases c; intros H; try discriminate H; vm_compute; intuition discriminate.
Qed.

Lemma inClass_hexDigit (c : ascii) :
  RegExp.inClass [("0"%char, "9"%char); ("A"%char, "F"%char); ("a"%char, "f"%char)] c
  = isHexDigit c.
Proof.
  unfold RegExp.inClass, isHexDigit. simpl.
  destruct (inRange c "0" "9"), (inRange c "A" "F"), (inRange c "a" "f"); reflexivity.
Qed.

Lemma inClass_hash (c : ascii) :
  RegExp.inClass [("#"%char, "#"%char)] c = (c =? "#")%char.
Proof. ascii_cases c; reflexivity. Qed.

Lemma forallb_ext_eq {A} (f g : A -> bool) (l : list A) :
  (forall a, f a = g a) -> forallb f l = forallb g l.
Proof. intros E. induction l as [| a l IH]; simpl; [reflexivity |]. rewrite E, IH. reflexivity. Qed.

(** The pattern accepts exactly the well-formed colour strings. *)
Lemma test_hexPattern (s : string) : RegExp.test hexPattern s = wellFormed s.
Proof.
  apply eq_true_iff_eq. rewrite RegExpFacts.test_Matches.
  unfold hexPattern, RegExp.Opt, wellFormed. split.
  - intros H. apply RegExpFacts.Matches_Seq_inv in H as (u & v & -> & Hu & Hv).
    apply RegExpFacts.Matches_Rep_Class in Hv as [Hl Hf].
    rewrite (forallb_ext_eq _ _ _ inClass_hexDigit) in Hf.
    apply RegExpFacts.Matches_Alt_inv in Hu as [Hu | Hu].
    + apply RegExpFacts.Matches_Class_inv in Hu as (c & -> & Hc).
      rewrite inClass_hash in Hc. simpl. rewrite Hc, Hl, Hf. reflexivity.
    + apply RegExpFacts.Matches_Empty_inv in Hu. subst u. simpl.
      destruct v as [| c v]; [discriminate Hl |].
      simpl in Hf. apply andb_true_iff in Hf as [Hc Hf].
      unfold colourDigits.
      destruct (hexDigit_facts c Hc) as (_ & _ & _ & _ & _ & -> & _).
      rewrite Hl. simpl. rewrite Hc, Hf. reflexivity.
  - intros H. apply andb_true_iff in H as [Hl Hf]. apply Nat.eqb_eq in Hl.
    destruct s as [| c t]; [discriminate Hl |]. unfold colourDigits in Hl, Hf.
    destruct (c =? "#")%char eqn:Hc.
    + apply Ascii.eqb_eq in Hc. subst c.
      change (String "#" t) with (String "#" "" ++ t). constructor.
      * apply MAltL. constructor. reflexivity.
      * apply RegExpFacts.Matches_Rep_Class.
        rewrite (forallb_ext_eq _ _ _ inClass_hexDigit). auto.
    + change (String c t) with ("" ++ String c t). constructor.
      * apply MAltR. constructor.
      * apply RegExpFacts.Matches_Rep_Class.
        rewrite (forallb_ext_eq _ _ _ inClass_hexDigit). auto.
Qed.

Lemma readDigits_hex (ds : list ascii) : forall a : Z,
  forallb isHexDigit ds = true ->
  readDigits 16 (string_of_list_ascii ds) (Some a)
  = Some (fold_left (fun acc c => 16 * acc + hexDigitValue c)%Z ds a).
Proof.
  induction ds as [| c ds IH]; intros a H;
    cbn [string_of_list_ascii readDigits fold_left]; [reflexivity |].
  simpl in H. apply andb_true_iff in H as [Hc H].
  destruct (hexDigit_facts c Hc) as (_ & _ & _ & _ & _ & _ & -> & -> & _).
  rewrite IH by exact H. do 2 f_equal. lia.
Qed.

(** On a non-empty row of hexadecimal digits [parseInt] finds no white space,
    sign or prefix to drop, and reads the whole row. *)
Lemma parseInt_hexDigits (ds : list ascii) :
  ds <> [] -> forallb isHexDigit ds = true ->
  parseInt (string_of_list_ascii ds) 16 = of_int (hexValue ds).
Proof.
  intros Hne H. destruct ds as [| c ds]; [congruence |]. clear Hne.
  pose proof H as H'. simpl in H'. apply andb_true_iff in H' as [Hc Hds].
  destruct (hexDigit_facts c Hc) as (Hw & Hm & Hp & _ & _ & _ & Hv & Hlt & _).
  unfold parseInt. simpl string_of_list_ascii. simpl trimStart. rewrite Hw, Hm, Hp.
  change (wrap32 16) with 16%Z. simpl orb. cbv iota.
  assert (Hpre : stripHexPrefix (String c (string_of_list_ascii ds)) = None).
  { destruct ds as [| c1 ds']; [reflexivity |]. simpl.
    simpl in Hds. apply andb_true_iff in Hds as [Hc1 _].
    destruct (hexDigit_facts c1 Hc1) as (_ & _ & _ & -> & -> & _).
    rewrite andb_false_r. reflexivity. }
  rewrite Hpre. cbv iota beta.
  change (String c (string_of_list_ascii ds)) with (string_of_list_ascii (c :: ds)).
  simpl readDigits. rewrite Hv, Hlt.
  rewrite readDigits_hex by exact Hds.
  unfold hexValue. simpl fold_left. rewrite Z.mul_1_l. reflexivity.
Qed.

Lemma hexValue_bound (ds : list ascii) : forall a : Z,
  (0 <= a)%Z -> forallb isHexDigit ds = true ->
  (0 <= fold_left (fun acc c => 16 * acc + hexDigitValue c) ds a
     < (a + 1) * 16 ^ Z.of_nat (List.length ds))%Z.
Proof.
  induction ds as [| c ds IH]; intros a Ha H; cbn [fold_left List.length].
  - simpl. lia.
  - simpl in H. apply andb_true_iff in H as [Hc H].
    destruct (hexDigit_facts c Hc) as (_ & _ & _ & _ & _ & _ & _ & Hlt & Hge).
    apply Z.ltb_lt in Hlt.
    specialize (IH (16 * a + hexDigitValue c)%Z ltac:(lia) H).
    rewrite Nat2Z.inj_succ, Z.pow_succ_r by lia.
    assert (0 < 16 ^ Z.of_nat (List.length ds))%Z by (apply Z.pow_pos_nonneg; lia).
    nia.
Qed.

Lemma hexValue_range (ds : list ascii) :
  forallb isHexDigit ds = true -> (0 <= hexValue ds < 16 ^ Z.of_nat (List.length ds))%Z.
Proof.
  intros H. pose proof (hexValue_bound ds 0 ltac:(lia) H) as Hb.
  unfold hexValue. lia.
Qed.

Lemma stringToHex_parse (s : string) : stringToHex s = parse_hex_string s.
Proof.
  unfold stringToHex, parse_hex_string. rewrite test_hexPattern.
  destruct (wellFormed s) eqn:Hwf; [| reflexivity]. simpl negb. cbv iota.
  unfold wellFormed in Hwf. apply andb_true_iff in Hwf as [Hl Hf].
  apply Nat.eqb_eq in Hl.
  assert (Hne : colourDigits s <> []) by (intros E; rewrite E in Hl; discriminate).
  f_equal. rewrite <- (parseInt_hexDigits _ Hne Hf). f_equal.
  destruct s as [| c t]; [reflexivity |]. simpl.
  destruct (c =? "#")%char; simpl;
    rewrite ?string_of_list_ascii_of_string; reflexivity.
Qed.

End Parse.

(** C4.  [stringToHex] succeeds exactly on an optional leading ['#'] followed
    by exactly six hexadecimal digits of either case, and then returns the
    24-bit value the digits spell; on every other string it throws the
    invalid-format error.  ["#FF00FF"] gives [0xFF00FF]; ["zzzzzz"],
    ["#12345"] and the empty string are refused. *)
Theorem stringToHex_spec (s : string) :
  stringToHex s = parse_hex_string s
  /\ ((exists v, stringToHex s = Ok v) <->
      exists ds : list ascii,
        (s = string_of_list_ascii ds \/ s = String "#" (string_of_list_ascii ds))
        /\ List.length ds = 6%nat /\ forallb isHexDigit ds = true)
  /\ (forall v, stringToHex s = Ok v ->
        v = of_int (hexValue (colourDigits s))
        /\ (0 <= hexValue (colourDigits s) <= 0xFFFFFF)%Z)
  /\ ((forall v, stringToHex s <> Ok v) -> stringToHex s = InvalidFormat)
  /\ stringToHex "#FF00FF" = Ok (of_int 0xFF00FF)
  /\ stringToHex "zzzzzz" = InvalidFormat
  /\ stringToHex "#12345" = InvalidFormat
  /\ stringToHex "" = InvalidFormat.
Proof.
  split; [apply stringToHex_parse |].
  rewrite !stringToHex_parse. unfold parse_hex_string.
  split; [| split; [| split]].
  - destruct (wellFormed s) eqn:Hwf; split.
    + intros _. unfold wellFormed in Hwf. apply andb_true_iff in Hwf as [Hl Hf].
      apply Nat.eqb_eq in Hl. exists (colourDigits s). split; [| auto].
      destruct s as [| c t]; [discriminate Hl |]. unfold colourDigits.
      destruct (c =? "#")%char eqn:Hc.
      * apply Ascii.eqb_eq in Hc. subst c. right.
        rewrite string_of_list_ascii_of_string. reflexivity.
      * left. rewrite string_of_list_ascii_of_string. reflexivity.
    + intros _. eauto.
    + intros [v Hv]. discriminate Hv.
    + intros (ds & Hs & Hl & Hf). exfalso.
      assert (E : colourDigits s = ds).
      { destruct Hs as [-> | ->].
        - destruct ds as [| c ds]; [discriminate Hl |]. simpl in Hf.
          apply andb_true_iff in Hf as [Hc _].
          destruct (hexDigit_facts c Hc) as (_ & _ & _ & _ & _ & Hh & _).
          simpl. rewrite Hh. simpl. rewrite list_ascii_of_string_of_list_ascii.
          reflexivity.
        - simpl. apply list_ascii_of_string_of_list_ascii. }
      unfold wellFormed in Hwf. rewrite E, Hl, Hf in Hwf. discriminate Hwf.
  - intros v Hv. destruct (wellFormed s) eqn:Hwf; [| discriminate Hv].
    injection Hv as <-. split; [reflexivity |].
    unfold wellFormed in Hwf. apply andb_true_iff in Hwf as [Hl Hf].
    apply Nat.eqb_eq in Hl. pose proof (hexValue_range _ Hf) as Hr.
    rewrite Hl in Hr. change (16 ^ Z.of_nat 6)%Z with 16777216%Z in Hr. lia.
  - intros Hno. destruct (wellFormed s); [| reflexivity].
    exfalso. eapply Hno. reflexivity.
  - repeat split; vm_compute; reflexivity.
Qed.

(** ** Arithmetic at finite and at undefined operands *)

Section Arithmetic.

Local Open Scope R_scope.

Lemma sub_Fin (x y : R) : sub (Fin x) (Fin y) = Fin (x - y).
Proof. reflexivity. Qed.

Lemma div_Fin (x y : R) : y <> 0 -> div (Fin x) (Fin y) = Fin (x / y).
Proof. intros H. unfold div. rewrite Reqb_false by exact H. reflexivity. Qed.

Lemma add_comm (a b : number) : add a b = add b a.
Proof. destruct a, b; simpl; try reflexivity. f_equal. apply Rplus_comm. Qed.

Lemma add_NaN_l (a : number) : add NaN a = NaN.
Proof. destruct a; reflexivity. Qed.

Lemma add_NaN_r (a : number) : add a NaN = NaN.
Proof. destruct a; reflexivity. Qed.


Lemma mul_NaN_r (a : number) : mul a NaN = NaN.
Proof. destruct a; reflexivity. Qed.

Lemma sub_NaN_l (a : number) : sub NaN a = NaN.
Proof. destruct a; reflexivity. Qed.

Lemma le_NaN_l (a : number) : le NaN a = false.
Proof. destruct a; reflexivity. Qed.

Lemma pow_NaN_l (e : R) : e <> 0 -> pow NaN (Fin e) = NaN.
Proof. intros H. unfold pow. rewrite Reqb_false by exact H. reflexivity. Qed.

(** The exponents of the program are finite and not zero. *)
Lemma third_Fin : div (Fin 1.0) (Fin 3.0) = Fin (1.0 / 3.0).
Proof. apply div_Fin. lra. Qed.

Lemma gamma_Fin : div (Fin 1) (Fin 2.4) = Fin (1 / 2.4).
Proof. apply div_Fin. lra. Qed.

Lemma pow_pos (b e : R) : 0 < b -> e <> 0 -> pow (Fin b) (Fin e) = Fin (Rpower b e).
Proof.
  intros Hb He. unfold pow.
  rewrite (Reqb_false e) by exact He.
  rewrite (Reqb_false b) by lra. rewrite Rltb_true by exact Hb. reflexivity.
Qed.

Lemma pow_zero (e : R) : 0 < e -> pow (Fin 0) (Fin e) = Fin 0.
Proof.
  intros He. unfold pow.
  rewrite (Reqb_false e) by lra.
  rewrite Reqb_true by reflexivity. rewrite Rltb_true by exact He. reflexivity.
Qed.

Lemma trunc_third : trunc (1.0 / 3.0) = 0%Z.
Proof. apply trunc_nonneg; simpl; lra. Qed.

Lemma third_not_integer : is_integer (1.0 / 3.0) = false.
Proof. unfold is_integer. rewrite trunc_third. apply Reqb_false. lra. Qed.


Lemma pow_NegInf_third : pow NegInf (Fin (1.0 / 3.0)) = PosInf.
Proof.
  unfold pow. rewrite (Reqb_false (1.0 / 3.0)) by lra.
  rewrite Rltb_true by lra. rewrite third_not_integer. reflexivity.
Qed.

Lemma pow_cbrt (x : R) : 0 <= x -> pow (Fin x) (Fin (1.0 / 3.0)) = Fin (cbrt x).
Proof.
  intros Hx. unfold cbrt. destruct (Req_dec_T x 0) as [-> | Hne].
  - rewrite Reqb_true by reflexivity. apply pow_zero. lra.
  - rewrite Reqb_false by exact Hne. apply pow_pos; lra.
Qed.

Lemma Rpower_nat (x : R) (n : nat) : 0 < x -> Rpower x (INR n) = x ^ n.
Proof. intros Hx. apply Rpower_pow. exact Hx. Qed.

Lemma cbrt_nonneg (x : R) : 0 <= x -> 0 <= cbrt x.
Proof.
  intros Hx. unfold cbrt. destruct (Reqb x 0); [lra |].
  left. apply exp_pos.
Qed.

Lemma cbrt_cube (x : R) : 0 <= x -> cbrt x * cbrt x * cbrt x = x.
Proof.
  intros Hx. unfold cbrt. destruct (Req_dec_T x 0) as [-> | Hne].
  - rewrite Reqb_true by reflexivity. lra.
  - rewrite Reqb_false by exact Hne.
    assert (Hpos : 0 < x) by lra.
    rewrite <- !Rpower_plus.
    replace (1.0 / 3.0 + 1.0 / 3.0 + 1.0 / 3.0) with 1 by lra.
    apply Rpower_1. exact Hpos.
Qed.

End Arithmetic.

(** ** The mixing engine at colours in gamut *)

Section Mixing.

Local Open Scope R_scope.

Lemma inGamut_inv (c : Vec3) :
  inGamut c ->
  exists r g b : R,
    c = V3 (Fin r) (Fin g) (Fin b) /\ 0 <= r <= 1 /\ 0 <= g <= 1 /\ 0 <= b <= 1.
Proof.
  destruct c as [[r | | |] [g | | |] [b | | |]]; unfold inGamut; simpl;
    intros (Hr & Hg & Hb); try contradiction.
  exists r, g, b. auto.
Qed.

Lemma toLMS_Fin (r g b : R) :
  mat3MultiplyVec3 kCONEtoLMS (V3 (Fin r) (Fin g) (Fin b))
  = V3 (Fin (cone0 r g b)) (Fin (cone1 r g b)) (Fin (cone2 r g b)).
Proof. reflexivity. Qed.

Lemma toRGB_Fin (l m s : R) :
  mat3MultiplyVec3 kLMStoCONE (V3 (Fin l) (Fin m) (Fin s))
  = V3 (Fin (lin0 l m s)) (Fin (lin1 l m s)) (Fin (lin2 l m s)).
Proof. reflexivity. Qed.

Lemma cone_nonneg (r g b : R) :
  0 <= r -> 0 <= g -> 0 <= b ->
  0 <= cone0 r g b /\ 0 <= cone1 r g b /\ 0 <= cone2 r g b.
Proof. intros Hr Hg Hb. unfold cone0, cone1, cone2. repeat split; nra. Qed.

(** With non-negative channels no cube root is taken of a negative number,
    and the engine computes with finite numbers throughout. *)
Lemma oklabMix_Fin (r1 g1 b1 r2 g2 b2 h : R) :
  0 <= r1 -> 0 <= g1 -> 0 <= b1 -> 0 <= r2 -> 0 <= g2 -> 0 <= b2 ->
  oklabMix (V3 (Fin r1) (Fin g1) (Fin b1)) (V3 (Fin r2) (Fin g2) (Fin b2)) (Fin h)
  = V3 (Fin (lin0 (blend (cone0 r1 g1 b1) (cone0 r2 g2 b2) h)
                  (blend (cone1 r1 g1 b1) (cone1 r2 g2 b2) h)
                  (blend (cone2 r1 g1 b1) (cone2 r2 g2 b2) h)))
       (Fin (lin1 (blend (cone0 r1 g1 b1) (cone0 r2 g2 b2) h)
                  (blend (cone1 r1 g1 b1) (cone1 r2 g2 b2) h)
                  (blend (cone2 r1 g1 b1) (cone2 r2 g2 b2) h)))
       (Fin (lin2 (blend (cone0 r1 g1 b1) (cone0 r2 g2 b2) h)
                  (blend (cone1 r1 g1 b1) (cone1 r2 g2 b2) h)
                  (blend (cone2 r1 g1 b1) (cone2 r2 g2 b2) h))).
Proof.
  intros H1 H2 H3 H4 H5 H6.
  destruct (cone_nonneg r1 g1 b1 H1 H2 H3) as (A0 & A1 & A2).
  destruct (cone_nonneg r2 g2 b2 H4 H5 H6) as (B0 & B1 & B2).
  unfold oklabMix. rewrite !toLMS_Fin, third_Fin. unfold powVec3.
  cbn [ix0 ix1 ix2]. rewrite !pow_cbrt by assumption.
  unfold mix. cbn [ix0 ix1 ix2]. rewrite !sub_Fin.
  cbn [mul add]. rewrite toRGB_Fin. reflexivity.
Qed.

Lemma blend_start (x y : R) : 0 <= x -> blend x y 0 = x.
Proof.
  intros Hx. unfold blend, lerp, cube.
  replace (cbrt x * (1 - 0) + cbrt y * 0) with (cbrt x) by lra.
  apply cbrt_cube. exact Hx.
Qed.

Lemma blend_end (x y : R) : 0 <= y -> blend x y 1 = y.
Proof.
  intros Hy. unfold blend, lerp, cube.
  replace (cbrt x * (1 - 1) + cbrt y * 1) with (cbrt y) by lra.
  apply cbrt_cube. exact Hy.
Qed.

Lemma blend_half_sym (x y : R) : blend x y 0.5 = blend y x 0.5.
Proof. unfold blend, lerp. f_equal. lra. Qed.

(** [LMS_TO_CONE] undoes [CONE_TO_LMS] up to the precision of their ten-digit
    entries: on the unit cube the round trip moves no channel by more than
    [1e-7]. *)
Lemma matrices_inverse (r g b : R) :
  0 <= r <= 1 -> 0 <= g <= 1 -> 0 <= b <= 1 ->
  Rabs (lin0 (cone0 r g b) (cone1 r g b) (cone2 r g b) - r) <= 1e-7
  /\ Rabs (lin1 (cone0 r g b) (cone1 r g b) (cone2 r g b) - g) <= 1e-7
  /\ Rabs (lin2 (cone0 r g b) (cone1 r g b) (cone2 r g b) - b) <= 1e-7.
Proof.
  intros Hr Hg Hb. unfold lin0, lin1, lin2, cone0, cone1, cone2.
  repeat split; apply Rabs_le; lra.
Qed.

End Mixing.

(** ** Propagation of [NaN] *)

Section Undefined.

Lemma mat3MultiplyVec3_NaN (m : Mat3) (v : Vec3) :
  ix0 v = NaN \/ ix1 v = NaN \/ ix2 v = NaN ->
  mat3MultiplyVec3 m v = V3 NaN NaN NaN.
Proof.
  intros [H | [H | H]]; unfold mat3MultiplyVec3; rewrite H;
    rewrite ?mul_NaN_r, ?add_NaN_l, ?add_NaN_r; reflexivity.
Qed.






Lemma linearRGBtoHex_NaN : linearRGBtoHex (V3 NaN NaN NaN) = 0%Z.
Proof.
  unfold linearRGBtoHex. cbn [ix0 ix1 ix2]. rewrite le_NaN_l, gamma_Fin.
  rewrite pow_NaN_l by lra. reflexivity.
Qed.

End Undefined.

(** C6.  For colours [A] and [B] in gamut, mixing at ratio [0.0] gives [A] and
    mixing at ratio [1.0] gives [B], each channel within [1e-6]. *)
Theorem oklabMix_identity (A B : Vec3) :
  inGamut A -> inGamut B ->
  withinVec 1e-6 (oklabMix A B 0.0%R) A /\ withinVec 1e-6 (oklabMix A B 1.0%R) B.
Proof.
  intros HA HB.
  apply inGamut_inv in HA as (r1 & g1 & b1 & -> & Hr1 & Hg1 & Hb1).
  apply inGamut_inv in HB as (r2 & g2 & b2 & -> & Hr2 & Hg2 & Hb2).
  destruct (cone_nonneg r1 g1 b1) as (A0 & A1 & A2); try lra.
  destruct (cone_nonneg r2 g2 b2) as (B0 & B1 & B2); try lra.
  replace 0.0%R with 0%R by lra. replace 1.0%R with 1%R by lra.
  rewrite !oklabMix_Fin by lra.
  rewrite !blend_start, !blend_end by assumption.
  destruct (matrices_inverse r1 g1 b1) as (E0 & E1 & E2); try lra.
  destruct (matrices_inverse r2 g2 b2) as (F0 & F1 & F2); try lra.
  unfold withinVec, within; cbn [ix0 ix1 ix2]. repeat split; lra.
Qed.

Lemma oklabMix_identity_witness :
  inGamut (V3 1%R 0%R 0%R) /\ inGamut (V3 0%R 0%R 1%R)
  /\ withinVec 1e-6 (oklabMix (V3 1%R 0%R 0%R) (V3 0%R 0%R 1%R) 0.0%R) (V3 1%R 0%R 0%R)
  /\ withinVec 1e-6 (oklabMix (V3 1%R 0%R 0%R) (V3 0%R 0%R 1%R) 1.0%R) (V3 0%R 0%R 1%R).
Proof.
  assert (HA : inGamut (V3 1%R 0%R 0%R)) by (unfold inGamut; simpl; lra).
  assert (HB : inGamut (V3 0%R 0%R 1%R)) by (unfold inGamut; simpl; lra).
  split; [exact HA |]. split; [exact HB |].
  exact (oklabMix_identity _ _ HA HB).
Defined.

(** C7.  For colours [A] and [B] in gamut, the mix at ratio one half is the
    same whichever colour comes first: the two results are equal, hence
    within every tolerance of each other. *)
Theorem oklabMix_midpoint_symmetric (A B : Vec3) :
  inGamut A -> inGamut B ->
  oklabMix A B 0.5%R = oklabMix B A 0.5%R
  /\ forall tol : R, (0 <= tol)%R -> withinVec tol (oklabMix A B 0.5%R) (oklabMix B A 0.5%R).
Proof.
  intros HA HB.
  apply inGamut_inv in HA as (r1 & g1 & b1 & -> & Hr1 & Hg1 & Hb1).
  apply inGamut_inv in HB as (r2 & g2 & b2 & -> & Hr2 & Hg2 & Hb2).
  rewrite !oklabMix_Fin by lra.
  rewrite (blend_half_sym (cone0 r1 g1 b1)), (blend_half_sym (cone1 r1 g1 b1)),
    (blend_half_sym (cone2 r1 g1 b1)).
  split; [reflexivity |].
  intros tol Htol. unfold withinVec, within; cbn [ix0 ix1 ix2].
  rewrite !Rminus_diag, Rabs_R0. auto.
Qed.

Lemma oklabMix_midpoint_symmetric_witness :
  inGamut (V3 1%R 0%R 0%R) /\ inGamut (V3 0%R 0%R 1%R)
  /\ oklabMix (V3 1%R 0%R 0%R) (V3 0%R 0%R 1%R) 0.5%R
     = oklabMix (V3 0%R 0%R 1%R) (V3 1%R 0%R 0%R) 0.5%R.
Proof.
  assert (HA : inGamut (V3 1%R 0%R 0%R)) by (unfold inGamut; simpl; lra).
  assert (HB : inGamut (V3 0%R 0%R 1%R)) by (unfold inGamut; simpl; lra).
  split; [exact HA |]. split; [exact HB |].
  exact (proj1 (oklabMix_midpoint_symmetric _ _ HA HB)).
Defined.

(** Outside the colour model: a channel of [-Infinity] gives a cone response
    of [-Infinity], which [Math.pow] sends to [+Infinity] and not to [NaN].
    The theorem below is about colours whose channels are finite numbers. *)
Remark cubeRootStep_NegInf :
  isNegative (component 0 (coneResponse (V3 NegInf 0%R 0%R)))
  /\ component 0 (cubeRootStep (V3 NegInf 0%R 0%R)) = PosInf
  /\ component 0 (cubeRootStep (V3 NegInf 0%R 0%R)) <> NaN.
Proof.
  assert (E : coneResponse (V3 NegInf 0%R 0%R) = V3 NegInf NegInf NegInf).
  { unfold coneResponse, mat3MultiplyVec3, kCONEtoLMS. cbn [ix0 ix1 ix2 row0 row1 row2].
    cbn [mul add]. unfold scale_inf.
    rewrite !Reqb_false by lra. rewrite !Rltb_true by lra. reflexivity. }
  unfold cubeRootStep. rewrite E, third_Fin. unfold powVec3. cbn [component ix0].
  rewrite pow_NegInf_third. split; [exact I | split; [reflexivity | discriminate]].
Qed.




(** ** Bounds on real powers with a rational exponent *)

Section Powers.

Local Open Scope R_scope.

Lemma INR_pos_nat (q : nat) : (0 < q)%nat -> 0 < INR q.
Proof. intros H. apply lt_0_INR. exact H. Qed.

Lemma Rpower_rational (x e : R) (p q : nat) :
  0 < x -> (0 < q)%nat -> e * INR q = INR p ->
  Rpower x e = Rpower (x ^ p) (/ INR q).
Proof.
  intros Hx Hq He. pose proof (INR_pos_nat q Hq) as Hq'.
  rewrite <- Rpower_pow by exact Hx. rewrite Rpower_mult. f_equal.
  rewrite <- He. field. lra.
Qed.

Lemma Rpower_root (y : R) (q : nat) :
  0 < y -> (0 < q)%nat -> Rpower (y ^ q) (/ INR q) = y.
Proof.
  intros Hy Hq. pose proof (INR_pos_nat q Hq) as Hq'.
  rewrite <- Rpower_pow by exact Hy. rewrite Rpower_mult.
  replace (INR q * / INR q) with 1 by (field; lra).
  apply Rpower_1. exact Hy.
Qed.

Lemma pow_pos_lt (y : R) (n : nat) : 0 < y -> 0 < y ^ n.
Proof. intros Hy. apply pow_lt. exact Hy. Qed.

Lemma Rpower_ge (x e lo : R) (p q : nat) :
  0 < x -> (0 < q)%nat -> e * INR q = INR p ->
  0 < lo -> lo ^ q <= x ^ p -> lo <= Rpower x e.
Proof.
  intros Hx Hq He Hlo H. pose proof (INR_pos_nat q Hq) as Hq'.
  rewrite (Rpower_rational x e p q) by assumption.
  rewrite <- (Rpower_root lo q) at 1 by assumption.
  apply Rle_Rpower_l.
  - left. apply Rinv_0_lt_compat. exact Hq'.
  - split; [apply pow_pos_lt; exact Hlo | exact H].
Qed.

Lemma Rpower_le (x e hi : R) (p q : nat) :
  0 < x -> (0 < q)%nat -> e * INR q = INR p ->
  0 < hi -> x ^ p <= hi ^ q -> Rpower x e <= hi.
Proof.
  intros Hx Hq He Hhi H. pose proof (INR_pos_nat q Hq) as Hq'.
  rewrite (Rpower_rational x e p q) by assumption.
  rewrite <- (Rpower_root hi q) at 1 by assumption.
  apply Rle_Rpower_l.
  - left. apply Rinv_0_lt_compat. exact Hq'.
  - split; [apply pow_pos_lt; exact Hx | exact H].
Qed.

(** The exponents of the transfer functions and of the cube root. *)
Lemma exponent_encode : 1 / 2.4 * INR 12 = INR 5.
Proof. simpl. lra. Qed.

Lemma exponent_decode : 2.4 * INR 5 = INR 12.
Proof. simpl. lra. Qed.

Lemma exponent_cbrt : 1.0 / 3.0 * INR 3 = INR 1.
Proof. simpl. lra. Qed.

End Powers.

(** ** Encoding and packing *)

Section Encoding.

Local Open Scope R_scope.

Lemma encodeChannel_Fin (x : R) : encodeChannel (Fin x) = Fin (srgb_encode x).
Proof.
  unfold encodeChannel, srgb_encode. cbn [le].
  destruct (Rle_dec x 0.0031308) as [Hle | Hgt].
  - rewrite Rleb_true by exact Hle. reflexivity.
  - rewrite Rleb_false by lra. rewrite gamma_Fin, pow_pos by lra. reflexivity.
Qed.

Lemma quantise_Fin (v : R) : quantise (Fin v) = wrap32 (trunc (v * 255 + 0.5)).
Proof. reflexivity. Qed.

Lemma linearRGBtoHex_linear_to_hex (rgb : Vec3) : linearRGBtoHex rgb = linear_to_hex rgb.
Proof.
  unfold linearRGBtoHex, linear_to_hex, pack, quantise, encodeChannel, bor.
  rewrite !Z.lor_0_r. reflexivity.
Qed.

Lemma linearRGBtoHex_Fin (r g b : R) :
  linearRGBtoHex (V3 (Fin r) (Fin g) (Fin b))
  = pack (wrap32 (trunc (srgb_encode r * 255 + 0.5)))
         (wrap32 (trunc (srgb_encode g * 255 + 0.5)))
         (wrap32 (trunc (srgb_encode b * 255 + 0.5))).
Proof.
  rewrite linearRGBtoHex_linear_to_hex. unfold linear_to_hex. cbn [ix0 ix1 ix2].
  rewrite !encodeChannel_Fin, !quantise_Fin. reflexivity.
Qed.

(** Truncation toward zero of [y + 1/2] rounds a non-negative [y] to the
    nearest integer, a half going up. *)
Lemma trunc_half_up (y : R) :
  0 <= y -> IZR (trunc (y + 0.5)) - 0.5 <= y < IZR (trunc (y + 0.5)) + 0.5.
Proof.
  intros Hy. unfold trunc. rewrite Rleb_true by lra.
  pose proof (Zfloor_bound (y + 0.5)). lra.
Qed.

Lemma land_disjoint (a b n : Z) :
  (0 <= n)%Z -> (0 <= b < 2 ^ n)%Z -> Z.land (a * 2 ^ n) b = 0%Z.
Proof.
  intros Hn Hb. apply Z.bits_inj'. intros i Hi.
  rewrite Z.land_spec, Z.bits_0, <- Z.shiftl_mul_pow2 by lia.
  destruct (Z.lt_ge_cases i n) as [Hlt | Hge].
  - rewrite Z.shiftl_spec_low by lia. reflexivity.
  - destruct (Z.eq_dec b 0) as [-> | Hb0].
    + rewrite Z.bits_0. apply andb_false_r.
    + rewrite (Z.bits_above_log2 b i); [apply andb_false_r | lia |].
      apply Z.log2_lt_pow2; [lia |].
      pose proof (Z.pow_le_mono_r 2 n i). lia.
Qed.

Lemma lor_disjoint (a b n : Z) :
  (0 <= n)%Z -> (0 <= b < 2 ^ n)%Z -> Z.lor (a * 2 ^ n) b = (a * 2 ^ n + b)%Z.
Proof.
  intros Hn Hb. pose proof (land_disjoint a b n Hn Hb) as H.
  rewrite <- Z.lxor_lor by exact H. symmetry. apply Z.add_nocarry_lxor. exact H.
Qed.

(** Channels within a byte pack side by side and read back unchanged. *)
Lemma pack_bytes (r g b : Z) :
  (0 <= r <= 255)%Z -> (0 <= g <= 255)%Z -> (0 <= b <= 255)%Z ->
  pack r g b = (r * 65536 + g * 256 + b)%Z.
Proof.
  intros Hr Hg Hb. unfold pack, shl, bor.
  change (16 mod 32)%Z with 16%Z. change (8 mod 32)%Z with 8%Z.
  rewrite !Z.shiftl_mul_pow2 by lia.
  rewrite !wrap32_small by lia.
  rewrite (lor_disjoint r (g * 2 ^ 8) 16) by lia.
  replace (r * 2 ^ 16 + g * 2 ^ 8)%Z with ((r * 2 ^ 8 + g) * 2 ^ 8)%Z by lia.
  rewrite lor_disjoint by lia. lia.
Qed.

Lemma channels_of_bytes (r g b : Z) :
  (0 <= r <= 255)%Z -> (0 <= g <= 255)%Z -> (0 <= b <= 255)%Z ->
  redOf (r * 65536 + g * 256 + b) = r
  /\ greenOf (r * 65536 + g * 256 + b) = g
  /\ blueOf (r * 65536 + g * 256 + b) = b.
Proof.
  intros Hr Hg Hb. unfold redOf, greenOf, blueOf, sar, band.
  change (16 mod 32)%Z with 16%Z. change (8 mod 32)%Z with 8%Z.
  change 255%Z with (Z.ones 8). rewrite !Z.land_ones by lia.
  rewrite !Z.shiftr_div_pow2 by lia.
  change (2 ^ 16)%Z with 65536%Z. change (2 ^ 8)%Z with 256%Z.
  repeat split; Z.div_mod_to_equations; lia.
Qed.

End Encoding.

Section EncodingExamples.

Local Open Scope R_scope.

Lemma quantised_zero : wrap32 (trunc (srgb_encode 0 * 255 + 0.5)) = 0%Z.
Proof.
  unfold srgb_encode. rewrite Rleb_true by lra.
  rewrite (trunc_nonneg _ 0); [reflexivity | lra | simpl; lra].
Qed.

Lemma quantised_minus_one : wrap32 (trunc (srgb_encode (-1) * 255 + 0.5)) = (-3294)%Z.
Proof.
  unfold srgb_encode. rewrite Rleb_true by lra.
  rewrite (trunc_neg _ (-3294)); [reflexivity | lra | lra].
Qed.

Lemma quantised_minus_million :
  wrap32 (trunc (srgb_encode (-1000000) * 255 + 0.5)) = 1000367297%Z.
Proof.
  unfold srgb_encode. rewrite Rleb_true by lra.
  rewrite (trunc_neg _ (-3294599999)); [reflexivity | lra | lra].
Qed.

Lemma quantised_two : wrap32 (trunc (srgb_encode 2 * 255 + 0.5)) = 345%Z.
Proof.
  unfold srgb_encode. rewrite Rleb_false by lra.
  assert (Hlo : 1.334 <= Rpower 2 (1 / 2.4)).
  { apply (Rpower_ge 2 _ _ 5 12); [lra | lia | exact exponent_encode | lra | lra]. }
  assert (Hhi : Rpower 2 (1 / 2.4) <= 1.336).
  { apply (Rpower_le 2 _ _ 5 12); [lra | lia | exact exponent_encode | lra | lra]. }
  rewrite (trunc_nonneg _ 345); [reflexivity | lra | lra].
Qed.

End EncodingExamples.

(** C8.  [linearRGBtoHex] is the specification's [linear_to_hex]: each
    channel goes through the piecewise sRGB encoding (times [12.92] up to
    [0.0031308], [1.055 * c^(1/2.4) - 0.055] above), is scaled by 255, has one
    half added and its fraction cut off toward zero, which rounds a
    non-negative value to the nearest integer with halves going up, and the
    three integers are packed by shift and or.  Channels within [0, 255] pack
    side by side and read back unchanged, but nothing clamps a channel to that
    range: a channel below it makes the packed value negative, a channel
    above it spills into its neighbour, and a large one wraps modulo [2^32]. *)
Theorem linearRGBtoHex_unclamped :
  (forall rgb : Vec3, linearRGBtoHex rgb = linear_to_hex rgb)
  /\ (forall x : R,
        encodeChannel (Fin x)
        = Fin (if Rleb x 0.0031308 then x * 12.92
               else 1.055 * Rpower x (1 / 2.4) - 0.055)%R)
  /\ (forall v : R, quantise (Fin v) = wrap32 (trunc (v * 255 + 0.5)))
  /\ (forall y : R, trunc y = if Rleb 0 y then Zfloor y else Zceil y)
  /\ (forall y : R, (0 <= y)%R ->
        (IZR (trunc (y + 0.5)) - 0.5 <= y < IZR (trunc (y + 0.5)) + 0.5)%R)
  /\ (forall r g b : Z,
        (0 <= r <= 255)%Z -> (0 <= g <= 255)%Z -> (0 <= b <= 255)%Z ->
        pack r g b = (r * 65536 + g * 256 + b)%Z
        /\ redOf (pack r g b) = r /\ greenOf (pack r g b) = g
        /\ blueOf (pack r g b) = b)
  /\ linearRGBtoHex (V3 (-1)%R 0%R 0%R) = (-215875584)%Z
  /\ (linearRGBtoHex (V3 0%R 2%R 0%R) = 0x015900%Z /\ redOf 0x015900 = 1%Z)
  /\ linearRGBtoHex (V3 (-1000000)%R 0%R 0%R) = 0x64C10000%Z.
Proof.
  split; [exact linearRGBtoHex_linear_to_hex |].
  split; [exact encodeChannel_Fin |].
  split; [exact quantise_Fin |].
  split; [reflexivity |].
  split; [exact trunc_half_up |].
  split.
  { intros r g b Hr Hg Hb. rewrite pack_bytes by assumption.
    split; [reflexivity |]. apply channels_of_bytes; assumption. }
  rewrite !linearRGBtoHex_Fin.
  rewrite quantised_zero, quantised_minus_one, quantised_two, quantised_minus_million.
  repeat split; vm_compute; reflexivity.
Qed.

(** ** Decoding, and the round trip through linear light *)

Section RoundTrip.

Local Open Scope R_scope.

Lemma decodeChannel_Fin (x : R) :
  (if (Fin x <=? 0.04045)%js then (Fin x / 12.92)%js
   else pow ((Fin x + 0.055) / 1.055)%js 2.4)
  = Fin (srgb_decode x).
Proof.
  unfold srgb_decode. cbn [le add].
  destruct (Rle_dec x 0.04045) as [Hle | Hgt].
  - rewrite Rleb_true by exact Hle. apply div_Fin. lra.
  - rewrite Rleb_false by lra. rewrite div_Fin by lra. apply pow_pos; [| lra].
    apply Rdiv_lt_0_compat; lra.
Qed.

Lemma hexToLinearRGB_Fin (hex : Z) :
  hexToLinearRGB (of_int hex)
  = V3 (Fin (srgb_decode (IZR (redOf (wrap32 hex)) / 255)))
       (Fin (srgb_decode (IZR (greenOf (wrap32 hex)) / 255)))
       (Fin (srgb_decode (IZR (blueOf (wrap32 hex)) / 255))).
Proof.
  unfold hexToLinearRGB. cbv zeta. rewrite ToInt32_of_int. unfold of_int.
  rewrite !(div_Fin _ 255) by lra. rewrite !decodeChannel_Fin. reflexivity.
Qed.

(** The decoded value of a byte lies on the branch of the encoder that
    inverts the branch of the decoder it came from. *)
Lemma srgb_decode_low (v : R) : v <= 0.04 -> srgb_decode v = v / 12.92.
Proof. intros H. unfold srgb_decode. rewrite Rleb_true by lra. reflexivity. Qed.

Lemma srgb_decode_high (v : R) :
  0.043 <= v -> srgb_decode v = Rpower ((v + 0.055) / 1.055) 2.4.
Proof. intros H. unfold srgb_decode. rewrite Rleb_false by lra. reflexivity. Qed.

Lemma decoded_high_bound (v : R) :
  0.043 <= v -> 0.00314 <= Rpower ((v + 0.055) / 1.055) 2.4.
Proof.
  intros H. set (y := (v + 0.055) / 1.055).
  assert (Hy : 0.0928 <= y) by (unfold y; lra).
  apply (Rpower_ge y 2.4 _ 12 5); [lra | lia | exact exponent_decode | lra |].
  apply Rle_trans with (0.0928 ^ 12); [lra |].
  apply pow_incr. lra.
Qed.

Lemma srgb_encode_decode (v : R) :
  v <= 0.04 \/ 0.043 <= v -> srgb_encode (srgb_decode v) = v.
Proof.
  intros [H | H].
  - rewrite srgb_decode_low by exact H. unfold srgb_encode.
    rewrite Rleb_true by lra. lra.
  - rewrite srgb_decode_high by exact H.
    pose proof (decoded_high_bound v H) as Hb.
    unfold srgb_encode. rewrite Rleb_false by lra.
    rewrite Rpower_mult. replace (2.4 * (1 / 2.4)) with 1 by lra.
    rewrite Rpower_1 by (apply Rdiv_lt_0_compat; lra). lra.
Qed.

Lemma byte_level (c : Z) :
  (0 <= c <= 255)%Z -> IZR c / 255 <= 0.04 \/ 0.043 <= IZR c / 255.
Proof.
  intros Hc. destruct (Z_le_gt_dec c 10) as [Hle | Hgt].
  - left. apply IZR_le in Hle. lra.
  - right. assert (H11 : (11 <= c)%Z) by lia. apply IZR_le in H11. lra.
Qed.

Lemma byte_roundtrip (c : Z) :
  (0 <= c <= 255)%Z ->
  wrap32 (trunc (srgb_encode (srgb_decode (IZR c / 255)) * 255 + 0.5)) = c.
Proof.
  intros Hc. rewrite srgb_encode_decode by (apply byte_level; exact Hc).
  assert (H0 : 0 <= IZR c) by (apply IZR_le; lia).
  rewrite (trunc_nonneg _ c) by lra. apply wrap32_small. lia.
Qed.

Lemma bytes_of_hex (hex : Z) :
  (0 <= hex <= 0xFFFFFF)%Z ->
  (redOf hex * 65536 + greenOf hex * 256 + blueOf hex = hex)%Z.
Proof.
  intros H. unfold redOf, greenOf, blueOf, sar, band.
  change (16 mod 32)%Z with 16%Z. change (8 mod 32)%Z with 8%Z.
  change 255%Z with (Z.ones 8). rewrite !Z.land_ones by lia.
  rewrite !Z.shiftr_div_pow2 by lia.
  change (2 ^ 16)%Z with 65536%Z. change (2 ^ 8)%Z with 256%Z.
  Z.div_mod_to_equations. lia.
Qed.

Lemma redOf_byte (hex : Z) : (0 <= redOf hex <= 255)%Z.
Proof.
  destruct (channel_range hex 16) as [H1 H2]. unfold redOf.
  split; [exact H1 | apply Z.lt_succ_r; exact H2].
Qed.

Lemma greenOf_byte (hex : Z) : (0 <= greenOf hex <= 255)%Z.
Proof.
  destruct (channel_range hex 8) as [H1 H2]. unfold greenOf.
  split; [exact H1 | apply Z.lt_succ_r; exact H2].
Qed.

Lemma blueOf_byte (hex : Z) : (0 <= blueOf hex <= 255)%Z.
Proof.
  unfold blueOf, band. change (Z.land hex 255) with (Z.land hex (Z.ones 8)).
  rewrite Z.land_ones by lia.
  pose proof (Z.mod_pos_bound hex (2 ^ 8)). lia.
Qed.

(** With exact arithmetic the round trip loses nothing. *)
Lemma roundtrip_exact (hex : Z) :
  (0 <= hex <= 0xFFFFFF)%Z -> linearRGBtoHex (hexToLinearRGB (of_int hex)) = hex.
Proof.
  intros H. rewrite hexToLinearRGB_Fin, linearRGBtoHex_Fin.
  rewrite (wrap32_small hex) by lia.
  rewrite (byte_roundtrip (redOf hex)) by exact (redOf_byte hex).
  rewrite (byte_roundtrip (greenOf hex)) by exact (greenOf_byte hex).
  rewrite (byte_roundtrip (blueOf hex)) by exact (blueOf_byte hex).
  rewrite pack_bytes by first
    [exact (redOf_byte hex) | exact (greenOf_byte hex) | exact (blueOf_byte hex)].
  apply bytes_of_hex. exact H.
Qed.

End RoundTrip.

(** C5.  For every 24-bit colour, decoding it to linear light and encoding
    the result again moves none of its three 8-bit channels by more than 1. *)
Theorem srgb_roundtrip (hex : Z) :
  (0x000000 <= hex <= 0xFFFFFF)%Z ->
  (Z.abs (redOf (linearRGBtoHex (hexToLinearRGB (of_int hex))) - redOf hex) <= 1)%Z
  /\ (Z.abs (greenOf (linearRGBtoHex (hexToLinearRGB (of_int hex))) - greenOf hex) <= 1)%Z
  /\ (Z.abs (blueOf (linearRGBtoHex (hexToLinearRGB (of_int hex))) - blueOf hex) <= 1)%Z.
Proof.
  intros H. rewrite roundtrip_exact by exact H. lia.
Qed.

Lemma srgb_roundtrip_witness :
  (0x000000 <= 0xFF00FF <= 0xFFFFFF)%Z
  /\ (Z.abs (redOf (linearRGBtoHex (hexToLinearRGB (of_int 0xFF00FF))) - redOf 0xFF00FF) <= 1)%Z.
Proof.
  assert (H : (0x000000 <= 0xFF00FF <= 0xFFFFFF)%Z) by lia.
  split; [exact H |]. exact (proj1 (srgb_roundtrip 0xFF00FF H)).
Defined.

(** ** The endpoints survive the mixing engine *)

Section Endpoints.

Local Open Scope R_scope.

Lemma Rpower_one_base (e : R) : Rpower 1 e = 1.
Proof. unfold Rpower. rewrite ln_1, Rmult_0_r. apply exp_0. Qed.

(** Below one, a power with exponent at least one is below its base. *)
Lemma Rpower_le_base (t e : R) : 0 < t <= 1 -> 1 <= e -> Rpower t e <= t.
Proof.
  intros Ht He. rewrite <- (Rpower_1 t) at 2 by lra. unfold Rpower.
  assert (Hln : ln t <= 0).
  { rewrite <- ln_1. destruct (proj2 Ht) as [Hlt | ->]; [left; apply ln_increasing; lra | lra]. }
  assert (Hm : e * ln t <= 1 * ln t) by nra.
  destruct Hm as [Hlt | Heq].
  - left. apply exp_increasing. exact Hlt.
  - rewrite Heq. apply Rle_refl.
Qed.

(** Above one, it is above its base. *)
Lemma Rpower_ge_base (t e : R) : 1 <= t -> 1 <= e -> t <= Rpower t e.
Proof.
  intros Ht He. rewrite <- (Rpower_1 t) at 1 by lra.
  apply Rle_Rpower; assumption.
Qed.

Lemma gamma_inverse (z : R) : 0 < z -> Rpower (Rpower z 2.4) (1 / 2.4) = z.
Proof.
  intros Hz. rewrite Rpower_mult. replace (2.4 * (1 / 2.4)) with 1 by lra.
  apply Rpower_1. exact Hz.
Qed.

(** A small relative error on a decoded value is at most as large on the
    value encoded back. *)
Lemma encode_near (y x eta : R) :
  0 < y -> 0 < eta < 1 ->
  Rpower y 2.4 * (1 - eta) <= x <= Rpower y 2.4 * (1 + eta) ->
  y * (1 - eta) <= Rpower x (1 / 2.4) <= y * (1 + eta).
Proof.
  intros Hy Heta [Hlo Hhi].
  assert (Hd : 0 < Rpower y 2.4) by apply exp_pos.
  assert (Hx : 0 < x) by nra.
  split.
  - rewrite <- (gamma_inverse (y * (1 - eta))) by nra.
    apply Rle_Rpower_l; [lra |]. split; [apply exp_pos |].
    apply Rle_trans with (Rpower y 2.4 * (1 - eta)); [| exact Hlo].
    rewrite <- Rpower_mult_distr by lra.
    apply Rmult_le_compat_l; [lra |]. apply Rpower_le_base; lra.
  - rewrite <- (gamma_inverse (y * (1 + eta))) at 1 by nra.
    apply Rle_Rpower_l; [lra |]. split; [exact Hx |].
    apply Rle_trans with (Rpower y 2.4 * (1 + eta)); [exact Hhi |].
    rewrite <- Rpower_mult_distr by lra.
    apply Rmult_le_compat_l; [lra |]. apply Rpower_ge_base; lra.
Qed.

Lemma Rabs_bound (a b : R) : Rabs a <= b -> - b <= a <= b.
Proof. unfold Rabs. destruct (Rcase_abs a); lra. Qed.

(** A value within [1e-7] of a decoded byte quantises to that byte. *)
Lemma quantise_near (c : Z) (x : R) :
  (0 <= c <= 255)%Z ->
  Rabs (x - srgb_decode (IZR c / 255)) <= 1e-7 ->
  wrap32 (trunc (srgb_encode x * 255 + 0.5)) = c.
Proof.
  intros Hc Hx. apply Rabs_bound in Hx.
  assert (H0 : 0 <= IZR c) by (apply IZR_le; lia).
  assert (H255 : IZR c <= 255) by (apply IZR_le; lia).
  rewrite (trunc_nonneg _ c); [apply wrap32_small; lia | |].
  all: destruct (byte_level c Hc) as [Hlow | Hhigh].
  all: try (rewrite srgb_decode_low in Hx by exact Hlow;
            unfold srgb_encode; rewrite Rleb_true by lra; lra).
  all: rewrite srgb_decode_high in Hx by exact Hhigh;
    pose proof (decoded_high_bound _ Hhigh) as Hd;
    set (y := (IZR c / 255 + 0.055) / 1.055) in *;
    assert (Hy : y * 1.055 = IZR c / 255 + 0.055) by (unfold y; lra);
    assert (Hy0 : 0 < y <= 1) by lra;
    destruct (encode_near y x 1e-4) as [Hl Hh]; [lra | lra | nra |];
    unfold srgb_encode; rewrite Rleb_false by lra; nra.
Qed.

Lemma srgb_decode_unit (v : R) : 0 <= v <= 1 -> 0 <= srgb_decode v <= 1.
Proof.
  intros Hv. unfold srgb_decode. destruct (Rle_dec v 0.04045) as [Hle | Hgt].
  - rewrite Rleb_true by exact Hle. lra.
  - rewrite Rleb_false by lra. split; [left; apply exp_pos |].
    rewrite <- (Rpower_one_base 2.4). apply Rle_Rpower_l; lra.
Qed.

Lemma byte_unit (c : Z) : (0 <= c <= 255)%Z -> 0 <= IZR c / 255 <= 1.
Proof.
  intros Hc. assert (H0 : 0 <= IZR c) by (apply IZR_le; lia).
  assert (H255 : IZR c <= 255) by (apply IZR_le; lia). lra.
Qed.

(** Whatever the integer, its three low bytes decode to a colour in gamut. *)
Lemma hexToLinearRGB_inGamut (hex : Z) : inGamut (hexToLinearRGB (of_int hex)).
Proof.
  rewrite hexToLinearRGB_Fin. unfold inGamut, inUnit; cbn [ix0 ix1 ix2].
  repeat split; apply srgb_decode_unit, byte_unit;
    first [exact (redOf_byte _) | exact (greenOf_byte _) | exact (blueOf_byte _)].
Qed.

End Endpoints.

Section EndpointColours.

Local Open Scope R_scope.

Lemma decoded_nonneg (c : Z) : (0 <= c <= 255)%Z -> 0 <= srgb_decode (IZR c / 255) <= 1.
Proof. intros Hc. apply srgb_decode_unit, byte_unit. exact Hc. Qed.

(** Mixed at ratio 0 a 24-bit colour comes back as itself, and so does the
    second colour at ratio 1. *)
Lemma mix_start_hex (hs he : Z) :
  (0 <= hs <= 0xFFFFFF)%Z ->
  linearRGBtoHex
    (oklabMix (hexToLinearRGB (of_int hs)) (hexToLinearRGB (of_int he)) (Fin 0)) = hs.
Proof.
  intros Hs. rewrite !hexToLinearRGB_Fin. rewrite (wrap32_small hs) by lia.
  pose proof (decoded_nonneg _ (redOf_byte hs)) as R1.
  pose proof (decoded_nonneg _ (greenOf_byte hs)) as G1.
  pose proof (decoded_nonneg _ (blueOf_byte hs)) as B1.
  pose proof (decoded_nonneg _ (redOf_byte (wrap32 he))) as R2.
  pose proof (decoded_nonneg _ (greenOf_byte (wrap32 he))) as G2.
  pose proof (decoded_nonneg _ (blueOf_byte (wrap32 he))) as B2.
  rewrite oklabMix_Fin by lra.
  rewrite !blend_start by (apply cone_nonneg; lra).
  destruct (matrices_inverse _ _ _ R1 G1 B1) as (E0 & E1 & E2).
  rewrite linearRGBtoHex_Fin.
  rewrite (quantise_near (redOf hs)) by (exact (redOf_byte hs) || exact E0).
  rewrite (quantise_near (greenOf hs)) by (exact (greenOf_byte hs) || exact E1).
  rewrite (quantise_near (blueOf hs)) by (exact (blueOf_byte hs) || exact E2).
  rewrite pack_bytes by first
    [exact (redOf_byte hs) | exact (greenOf_byte hs) | exact (blueOf_byte hs)].
  apply bytes_of_hex. exact Hs.
Qed.

Lemma mix_end_hex (hs he : Z) :
  (0 <= he <= 0xFFFFFF)%Z ->
  linearRGBtoHex
    (oklabMix (hexToLinearRGB (of_int hs)) (hexToLinearRGB (of_int he)) (Fin 1)) = he.
Proof.
  intros He. rewrite !hexToLinearRGB_Fin. rewrite (wrap32_small he) by lia.
  pose proof (decoded_nonneg _ (redOf_byte (wrap32 hs))) as R1.
  pose proof (decoded_nonneg _ (greenOf_byte (wrap32 hs))) as G1.
  pose proof (decoded_nonneg _ (blueOf_byte (wrap32 hs))) as B1.
  pose proof (decoded_nonneg _ (redOf_byte he)) as R2.
  pose proof (decoded_nonneg _ (greenOf_byte he)) as G2.
  pose proof (decoded_nonneg _ (blueOf_byte he)) as B2.
  rewrite oklabMix_Fin by lra.
  rewrite !blend_end by (apply cone_nonneg; lra).
  destruct (matrices_inverse _ _ _ R2 G2 B2) as (E0 & E1 & E2).
  rewrite linearRGBtoHex_Fin.
  rewrite (quantise_near (redOf he)) by (exact (redOf_byte he) || exact E0).
  rewrite (quantise_near (greenOf he)) by (exact (greenOf_byte he) || exact E1).
  rewrite (quantise_near (blueOf he)) by (exact (blueOf_byte he) || exact E2).
  rewrite pack_bytes by first
    [exact (redOf_byte he) | exact (greenOf_byte he) | exact (blueOf_byte he)].
  apply bytes_of_hex. exact He.
Qed.

End EndpointColours.

(** ** The loop *)

Section Driver.

Variables Start End : Vec3.
Variable midpoints : Z.

Lemma loop_step (i : Z) :
  (i <= midpoints)%Z ->
  loop Start End midpoints i
  = swatch Start End midpoints i :: loop Start End midpoints (i + 1).
Proof.
  intros H. rewrite loop_equation_1. destruct (Z_le_gt_dec i midpoints); [reflexivity | lia].
Qed.

Lemma loop_done (i : Z) : (i > midpoints)%Z -> loop Start End midpoints i = [].
Proof.
  intros H. rewrite loop_equation_1. destruct (Z_le_gt_dec i midpoints); [lia | reflexivity].
Qed.

(** The loop visits [i], [i + 1], ..., [midpoints], in that order. *)
Lemma loop_map (n : nat) : forall i : Z,
  Z.to_nat (midpoints + 1 - i) = n ->
  loop Start End midpoints i
  = map (fun k => swatch Start End midpoints (i + Z.of_nat k)) (seq 0 n).
Proof.
  induction n as [| n IH]; intros i Hn.
  - apply loop_done. lia.
  - rewrite loop_step by lia. cbn [seq map]. rewrite Z.add_0_r. f_equal.
    rewrite (IH (i + 1)%Z) by lia. rewrite <- seq_shift, map_map.
    apply map_ext. intros k. f_equal. lia.
Qed.

Lemma loop_length : List.length (loop Start End midpoints 0) = Z.to_nat (midpoints + 1).
Proof.
  rewrite (loop_map (Z.to_nat (midpoints + 1)) 0) by (f_equal; lia).
  rewrite length_map, length_seq. reflexivity.
Qed.

Lemma loop_nth (i : Z) :
  (0 <= i <= midpoints)%Z ->
  nth_error (loop Start End midpoints 0) (Z.to_nat i)
  = Some (swatch Start End midpoints i).
Proof.
  intros Hi. rewrite (loop_map (Z.to_nat (midpoints + 1)) 0) by (f_equal; lia).
  rewrite nth_error_map, nth_error_seq.
  destruct (Nat.ltb_spec (Z.to_nat i) (Z.to_nat (midpoints + 1))) as [_ | H]; [| lia].
  cbn [option_map]. do 2 f_equal. lia.
Qed.

End Driver.

(** ** The handler *)

Section Handler.

Lemma of_int_inj (a b : Z) : of_int a = of_int b -> a = b.
Proof. unfold of_int. intros H. injection H as H. apply eq_IZR. exact H. Qed.

Lemma stringToHex_value (s : string) (v : number) :
  stringToHex s = Ok v ->
  v = of_int (hexValue (colourDigits s))
  /\ (0 <= hexValue (colourDigits s) <= 0xFFFFFF)%Z.
Proof.
  rewrite stringToHex_parse. unfold parse_hex_string.
  destruct (wellFormed s) eqn:Hwf; [| discriminate].
  intros Hv. injection Hv as <-. split; [reflexivity |].
  unfold wellFormed in Hwf. apply andb_true_iff in Hwf as [Hl Hf].
  apply Nat.eqb_eq in Hl. pose proof (hexValue_range _ Hf) as Hr.
  rewrite Hl in Hr. change (16 ^ Z.of_nat 6)%Z with 16777216%Z in Hr. lia.
Qed.

Lemma stringToHex_range (s : string) (h : Z) :
  stringToHex s = Ok (of_int h) -> (0 <= h <= 0xFFFFFF)%Z.
Proof.
  intros H. apply stringToHex_value in H as [E Hr].
  apply of_int_inj in E. subst h. exact Hr.
Qed.

Lemma call_ok (start end_ : string) (hs he m : Z) :
  stringToHex start = Ok (of_int hs) ->
  stringToHex end_ = Ok (of_int he) ->
  call start end_ (Some m)
  = Ok (preamble start end_ m ++ map swatchLine (generate_sequence hs he m))%list.
Proof. intros Hs He. unfold call. rewrite Hs, He. reflexivity. Qed.

Lemma call_default (start end_ : string) : call start end_ None = call start end_ (Some 1%Z).
Proof. reflexivity. Qed.

(** A malformed start colour makes the handler throw before it logs anything;
    a malformed end colour does so too once the start colour has parsed. *)
Remark call_throws_start (start end_ : string) (midpoints : option Z) :
  stringToHex start = InvalidFormat ->
  call start end_ midpoints = Throw "Invalid hex color format.".
Proof. intros H. unfold call. rewrite H. reflexivity. Qed.

Remark call_throws_end (start end_ : string) (v : number) (midpoints : option Z) :
  stringToHex start = Ok v -> stringToHex end_ = InvalidFormat ->
  call start end_ midpoints = Throw "Invalid hex color format.".
Proof. intros Hs He. unfold call. rewrite Hs, He. reflexivity. Qed.

(** Below zero the count is outside the specification's unsigned type: from
    [-2] down the loop does not run at all. *)
Remark sequence_of_negative (hs he m : Z) :
  (m <= -2)%Z -> generate_sequence hs he m = [].
Proof. intros H. unfold generate_sequence. apply loop_done. lia. Qed.

Lemma ratio_first (n : Z) : (0 < n)%Z -> (of_int 0 / of_int n)%js = Fin 0.
Proof.
  intros Hn. unfold of_int. rewrite div_Fin.
  - f_equal. unfold Rdiv. apply Rmult_0_l.
  - apply not_0_IZR. lia.
Qed.

Lemma ratio_last (n : Z) : (0 < n)%Z -> (of_int n / of_int n)%js = Fin 1.
Proof.
  intros Hn. assert (H : IZR n <> 0%R) by (apply not_0_IZR; lia).
  unfold of_int. rewrite div_Fin by exact H. f_equal. field. exact H.
Qed.

Lemma ratio_Fin (i n : Z) : (0 < n)%Z -> (of_int i / of_int n)%js = Fin (IZR i / IZR n).
Proof. intros Hn. apply div_Fin. apply not_0_IZR. lia. Qed.

End Handler.

(** C1.  For two well-formed colour strings and a midpoint count [m] that is
    an unsigned integer, the handler logs its three-line preamble and then
    exactly [m + 2] colours.  The colour at index [i], for [i] from [0] to the
    effective count [m + 1], is [oklabMix] of the two decoded endpoints at
    ratio [i / (m + 1)], packed by [linearRGBtoHex].  The ratio is [0] at
    index [0], where the packed colour is the start colour itself, and [1] at
    the last index, where it is the end colour itself. *)
Theorem call_sequence (start end_ : string) (hs he m : Z) :
  stringToHex start = Ok (of_int hs) ->
  stringToHex end_ = Ok (of_int he) ->
  (0 <= m)%Z ->
  call start end_ (Some m)
  = Ok (preamble start end_ m ++ map swatchLine (generate_sequence hs he m))%list
  /\ Z.of_nat (List.length (generate_sequence hs he m)) = (m + 2)%Z
  /\ (forall i : Z, (0 <= i <= m + 1)%Z ->
        exists s : Swatch,
          nth_error (generate_sequence hs he m) (Z.to_nat i) = Some s
          /\ color s
             = oklabMix (hexToLinearRGB (of_int hs)) (hexToLinearRGB (of_int he))
                 (Fin (IZR i / IZR (m + 1)))
          /\ hexColor s = linearRGBtoHex (color s)
          /\ hexString s = hexToString (of_int (hexColor s)))
  /\ (exists s : Swatch,
        nth_error (generate_sequence hs he m) 0 = Some s
        /\ color s
           = oklabMix (hexToLinearRGB (of_int hs)) (hexToLinearRGB (of_int he)) (Fin 0)
        /\ hexColor s = hs)
  /\ (exists s : Swatch,
        nth_error (generate_sequence hs he m) (Z.to_nat (m + 1)) = Some s
        /\ color s
           = oklabMix (hexToLinearRGB (of_int hs)) (hexToLinearRGB (of_int he)) (Fin 1)
        /\ hexColor s = he).
Proof.
  intros Hs He Hm.
  pose proof (stringToHex_range _ _ Hs) as Rs.
  pose proof (stringToHex_range _ _ He) as Re.
  split; [apply call_ok; assumption |].
  unfold generate_sequence. split; [rewrite loop_length; lia |].
  split; [| split].
  - intros i Hi. eexists. split; [apply loop_nth; lia |].
    unfold swatch; cbn [color hexColor hexString].
    rewrite ratio_Fin by lia. auto.
  - eexists. split; [apply (loop_nth _ _ _ 0); lia |].
    unfold swatch; cbn [color hexColor].
    rewrite ratio_first by lia. split; [reflexivity |].
    apply mix_start_hex. exact Rs.
  - eexists. split; [apply loop_nth; lia |].
    unfold swatch; cbn [color hexColor].
    rewrite ratio_last by lia. split; [reflexivity |].
    apply mix_end_hex. exact Re.
Qed.

Lemma call_sequence_witness :
  stringToHex "#FF0000" = Ok (of_int 0xFF0000)
  /\ stringToHex "#0000FF" = Ok (of_int 0x0000FF)
  /\ (0 <= 3)%Z
  /\ Z.of_nat (List.length (generate_sequence 0xFF0000 0x0000FF 3)) = 5%Z.
Proof.
  assert (Hs : stringToHex "#FF0000" = Ok (of_int 0xFF0000)) by (vm_compute; reflexivity).
  assert (He : stringToHex "#0000FF" = Ok (of_int 0x0000FF)) by (vm_compute; reflexivity).
  assert (Hm : (0 <= 3)%Z) by lia.
  split; [exact Hs |]. split; [exact He |]. split; [exact Hm |].
  exact (proj1 (proj2 (call_sequence "#FF0000" "#0000FF" 0xFF0000 0x0000FF 3 Hs He Hm))).
Defined.

(** ** Enclosures for concrete colours *)

Section Enclosures.

Local Open Scope R_scope.

Lemma cbrt_between (x lo hi : R) :
  0 < lo -> lo ^ 3 <= x <= hi ^ 3 -> lo <= cbrt x <= hi.
Proof.
  intros Hlo [Hl Hh].
  assert (Hx : 0 < x).
  { apply Rlt_le_trans with (lo ^ 3); [apply pow_pos_lt; exact Hlo | exact Hl]. }
  assert (Hhi : 0 < hi).
  { destruct (Rlt_dec 0 hi) as [H | H]; [exact H |]. exfalso.
    assert (hi ^ 3 <= 0) by (simpl; nra). lra. }
  unfold cbrt. rewrite Reqb_false by lra. split.
  - apply (Rpower_ge x _ lo 1 3); [exact Hx | lia | exact exponent_cbrt | exact Hlo |].
    rewrite pow_1. exact Hl.
  - apply (Rpower_le x _ hi 1 3); [exact Hx | lia | exact exponent_cbrt | exact Hhi |].
    rewrite pow_1. exact Hh.
Qed.

Lemma cube_between (t lo hi : R) :
  0 <= lo -> lo <= t <= hi -> lo ^ 3 <= cube t <= hi ^ 3.
Proof.
  intros Hlo [Hl Hh]. replace (cube t) with (t ^ 3) by (unfold cube; simpl; ring).
  split; apply pow_incr; lra.
Qed.

Lemma blend_half_between (x y lx hx ly hy : R) :
  0 <= lx -> 0 <= ly ->
  lx <= cbrt x <= hx -> ly <= cbrt y <= hy ->
  ((lx + ly) / 2) ^ 3 <= blend x y (1 / 2) <= ((hx + hy) / 2) ^ 3.
Proof.
  intros Hlx Hly Hx Hy. unfold blend. apply cube_between; unfold lerp; lra.
Qed.

(** Mixing black with a colour scales the cone response by the cube of the
    ratio. *)
Lemma blend_from_zero (y h : R) : 0 <= y -> blend 0 y h = y * (h * h * h).
Proof.
  intros Hy. unfold blend, lerp, cube.
  assert (E : cbrt 0 = 0) by (unfold cbrt; rewrite Reqb_true; reflexivity).
  rewrite E.
  replace (y * (h * h * h)) with (cbrt y * cbrt y * cbrt y * (h * h * h))
    by (rewrite cbrt_cube by exact Hy; reflexivity).
  ring.
Qed.

(** A channel enclosed on the power branch of the encoder quantises to [c]
    when both ends of the enclosure do. *)
Lemma quantise_between (x xl xh lo hi : R) (c : Z) :
  0.0031308 < xl -> xl <= x <= xh ->
  0 < lo <= hi -> lo ^ 12 <= xl ^ 5 -> xh ^ 5 <= hi ^ 12 ->
  IZR c <= (1.055 * lo - 0.055) * 255 + 0.5 ->
  (1.055 * hi - 0.055) * 255 + 0.5 < IZR c + 1 ->
  (0 <= c < 2 ^ 31)%Z ->
  wrap32 (trunc (srgb_encode x * 255 + 0.5)) = c.
Proof.
  intros Hxl [Hx1 Hx2] [Hlo Hlh] Hl Hh Hc1 Hc2 Hc.
  assert (Hc0 : 0 <= IZR c) by (apply IZR_le; lia).
  assert (Hhi : 0 < hi) by lra.
  assert (Pl : lo <= Rpower x (1 / 2.4)).
  { apply (Rpower_ge x _ lo 5 12); [lra | lia | exact exponent_encode | exact Hlo |].
    apply Rle_trans with (xl ^ 5); [exact Hl | apply pow_incr; lra]. }
  assert (Ph : Rpower x (1 / 2.4) <= hi).
  { apply (Rpower_le x _ hi 5 12); [lra | lia | exact exponent_encode | exact Hhi |].
    apply Rle_trans with (xh ^ 5); [apply pow_incr; lra | exact Hh]. }
  unfold srgb_encode. rewrite Rleb_false by lra.
  rewrite (trunc_nonneg _ c); [apply wrap32_small; lia | lra | lra].
Qed.

Lemma srgb_decode_zero : srgb_decode (0 / 255) = 0.
Proof. unfold srgb_decode. rewrite Rleb_true by lra. lra. Qed.

Lemma srgb_decode_one : srgb_decode (255 / 255) = 1.
Proof.
  unfold srgb_decode. rewrite Rleb_false by lra.
  replace ((255 / 255 + 0.055) / 1.055) with 1 by lra. apply Rpower_one_base.
Qed.

Lemma decode_red : hexToLinearRGB (of_int 0xFF0000) = V3 1 0 0.
Proof.
  rewrite hexToLinearRGB_Fin.
  change (redOf (wrap32 0xFF0000)) with 255%Z.
  change (greenOf (wrap32 0xFF0000)) with 0%Z.
  change (blueOf (wrap32 0xFF0000)) with 0%Z.
  rewrite srgb_decode_zero, srgb_decode_one. reflexivity.
Qed.

Lemma decode_blue : hexToLinearRGB (of_int 0x0000FF) = V3 0 0 1.
Proof.
  rewrite hexToLinearRGB_Fin.
  change (redOf (wrap32 0x0000FF)) with 0%Z.
  change (greenOf (wrap32 0x0000FF)) with 0%Z.
  change (blueOf (wrap32 0x0000FF)) with 255%Z.
  rewrite srgb_decode_zero, srgb_decode_one. reflexivity.
Qed.

Lemma decode_black : hexToLinearRGB (of_int 0x000000) = V3 0 0 0.
Proof.
  rewrite hexToLinearRGB_Fin.
  change (redOf (wrap32 0x000000)) with 0%Z.
  change (greenOf (wrap32 0x000000)) with 0%Z.
  change (blueOf (wrap32 0x000000)) with 0%Z.
  rewrite srgb_decode_zero. reflexivity.
Qed.

Lemma decode_white : hexToLinearRGB (of_int 0xFFFFFF) = V3 1 1 1.
Proof.
  rewrite hexToLinearRGB_Fin.
  change (redOf (wrap32 0xFFFFFF)) with 255%Z.
  change (greenOf (wrap32 0xFFFFFF)) with 255%Z.
  change (blueOf (wrap32 0xFFFFFF)) with 255%Z.
  rewrite srgb_decode_one. reflexivity.
Qed.

(** Red and blue mixed half and half. *)
Lemma red_blue_half :
  linearRGBtoHex (oklabMix (V3 1 0 0) (V3 0 0 1) (Fin (1 / 2))) = 0xA17397%Z.
Proof.
  rewrite oklabMix_Fin by lra.
  assert (L : 0.21038 <= blend (cone0 1 0 0) (cone0 0 0 1) (1 / 2) <= 0.21040).
  { pose proof (blend_half_between (cone0 1 0 0) (cone0 0 0 1)
                  0.744200 0.744203 0.445316 0.445319) as H.
    unfold cone0 in *.
    destruct H as [H1 H2]; first [lra | apply cbrt_between; lra]. }
  assert (M : 0.39552 <= blend (cone1 1 0 0) (cone1 0 0 1) (1 / 2) <= 0.39553).
  { pose proof (blend_half_between (cone1 1 0 0) (cone1 0 0 1)
                  0.812447 0.812450 0.655647 0.655650) as H.
    unfold cone1 in *.
    destruct H as [H1 H2]; first [lra | apply cbrt_between; lra]. }
  assert (S : 0.23222 <= blend (cone2 1 0 0) (cone2 0 0 1) (1 / 2) <= 0.23223).
  { pose proof (blend_half_between (cone2 1 0 0) (cone2 0 0 1)
                  0.371947 0.371950 0.857379 0.857382) as H.
    unfold cone2 in *.
    destruct H as [H1 H2]; first [lra | apply cbrt_between; lra]. }
  set (l := blend (cone0 1 0 0) (cone0 0 0 1) (1 / 2)) in *.
  set (m := blend (cone1 1 0 0) (cone1 0 0 1) (1 / 2)) in *.
  set (s := blend (cone2 1 0 0) (cone2 0 0 1) (1 / 2)) in *.
  rewrite linearRGBtoHex_Fin.
  rewrite (quantise_between (lin0 l m s) 0.35511 0.35522 0.6496 0.6497 161);
    [| lra | unfold lin0; lra | lra | lra | lra | lra | lra | lia].
  rewrite (quantise_between (lin1 l m s) 0.17283 0.17294 0.4812 0.4814 115);
    [| lra | unfold lin1; lra | lra | lra | lra | lra | lra | lia].
  rewrite (quantise_between (lin2 l m s) 0.30998 0.31002 0.6138 0.6139 151);
    [| lra | unfold lin2; lra | lra | lra | lra | lra | lra | lia].
  vm_compute. reflexivity.
Qed.

(** Black and white mixed half and half. *)
Lemma black_white_half :
  linearRGBtoHex (oklabMix (V3 0 0 0) (V3 1 1 1) (Fin (1 / 2))) = 0x636363%Z.
Proof.
  rewrite oklabMix_Fin by lra.
  replace (cone0 0 0 0) with 0 by (unfold cone0; lra).
  replace (cone1 0 0 0) with 0 by (unfold cone1; lra).
  replace (cone2 0 0 0) with 0 by (unfold cone2; lra).
  rewrite !blend_from_zero by (unfold cone0, cone1, cone2; lra).
  rewrite linearRGBtoHex_Fin.
  rewrite !(quantise_between _ 0.12499 0.12501 0.4204 0.4205 99);
    try lra; try lia; try (unfold lin0, lin1, lin2, cone0, cone1, cone2; lra).
  vm_compute. reflexivity.
Qed.

End Enclosures.

(** ** Short sequences *)

Section ShortSequences.

Variables hs he : Z.

Let A : Vec3 := hexToLinearRGB (of_int hs).
Let B : Vec3 := hexToLinearRGB (of_int he).

Lemma sequence_of_zero :
  generate_sequence hs he 0 = [swatch A B 1 0; swatch A B 1 1].
Proof.
  unfold generate_sequence. rewrite (loop_map _ _ _ 2 0) by reflexivity. reflexivity.
Qed.

Lemma sequence_of_one :
  generate_sequence hs he 1 = [swatch A B 2 0; swatch A B 2 1; swatch A B 2 2].
Proof.
  unfold generate_sequence. rewrite (loop_map _ _ _ 3 0) by reflexivity. reflexivity.
Qed.

Lemma color_middle : color (swatch A B 2 1) = oklabMix A B (Fin (1 / 2)).
Proof. unfold swatch; cbn [color]. rewrite ratio_Fin by lia. reflexivity. Qed.

Lemma color_first (n : Z) : (0 < n)%Z -> color (swatch A B n 0) = oklabMix A B (Fin 0).
Proof. intros Hn. unfold swatch; cbn [color]. rewrite ratio_first by exact Hn. reflexivity. Qed.

Lemma color_last (n : Z) : (0 < n)%Z -> color (swatch A B n n) = oklabMix A B (Fin 1).
Proof. intros Hn. unfold swatch; cbn [color]. rewrite ratio_last by exact Hn. reflexivity. Qed.

Lemma hexColor_swatch (n i : Z) :
  hexColor (swatch A B n i) = linearRGBtoHex (color (swatch A B n i)).
Proof. unfold swatch. cbn [hexColor color]. reflexivity. Qed.

Lemma hexString_swatch (n i : Z) :
  hexString (swatch A B n i) = hexToString (of_int (hexColor (swatch A B n i))).
Proof. unfold swatch. cbn [hexString hexColor]. reflexivity. Qed.

End ShortSequences.

Section Examples.

Lemma parse_black : stringToHex "#000000" = Ok (of_int 0x000000).
Proof. vm_compute. reflexivity. Qed.

Lemma parse_white : stringToHex "#FFFFFF" = Ok (of_int 0xFFFFFF).
Proof. vm_compute. reflexivity. Qed.

Lemma parse_red : stringToHex "#FF0000" = Ok (of_int 0xFF0000).
Proof. vm_compute. reflexivity. Qed.

Lemma parse_blue : stringToHex "#0000FF" = Ok (of_int 0x0000FF).
Proof. vm_compute. reflexivity. Qed.

Lemma black_to_white_hex :
  map hexColor (generate_sequence 0x000000 0xFFFFFF 1) = [0x000000; 0x636363; 0xFFFFFF]%Z.
Proof.
  rewrite sequence_of_one. cbn [map]. rewrite !hexColor_swatch.
  rewrite color_middle, color_first, (color_last _ _ 2) by lia.
  rewrite mix_start_hex, mix_end_hex by lia.
  rewrite decode_black, decode_white, black_white_half. reflexivity.
Qed.

Lemma red_to_blue_hex :
  map hexColor (generate_sequence 0xFF0000 0x0000FF 1) = [0xFF0000; 0xA17397; 0x0000FF]%Z.
Proof.
  rewrite sequence_of_one. cbn [map]. rewrite !hexColor_swatch.
  rewrite color_middle, color_first, (color_last _ _ 2) by lia.
  rewrite mix_start_hex, mix_end_hex by lia.
  rewrite decode_red, decode_blue, red_blue_half. reflexivity.
Qed.

Lemma hexString_of_hexColor (l : list Swatch) (hexes : list Z) :
  Forall (fun s => hexString s = hexToString (of_int (hexColor s))) l ->
  map hexColor l = hexes ->
  map hexString l = map (fun h => hexToString (of_int h)) hexes.
Proof.
  intros Hall <-. rewrite map_map. induction Hall as [| s l Hs _ IH]; [reflexivity |].
  cbn [map]. rewrite Hs, IH. reflexivity.
Qed.

Lemma sequence_hexStrings (a b : Z) :
  Forall (fun s => hexString s = hexToString (of_int (hexColor s)))
         (generate_sequence a b 1).
Proof.
  rewrite sequence_of_one. repeat (constructor; [apply hexString_swatch |]). constructor.
Qed.

End Examples.

(** C2, as the specification states it, fails: with the default count the
    loop runs for [i = 0, 1, 2], so black to white gives three colours, not
    four. *)
Lemma default_count_not_four :
  call "#000000" "#FFFFFF" None
  = Ok (preamble "#000000" "#FFFFFF" 1
        ++ map swatchLine (generate_sequence 0x000000 0xFFFFFF 1))%list
  /\ List.length (generate_sequence 0x000000 0xFFFFFF 1) = 3%nat
  /\ List.length (generate_sequence 0x000000 0xFFFFFF 1) <> 4%nat.
Proof.
  split.
  - rewrite call_default. apply call_ok; [exact parse_black | exact parse_white].
  - rewrite sequence_of_one. split; [reflexivity | discriminate].
Qed.

(** C2, amended.  A count that is not supplied defaults to 1, and the count 1
    gives three colours in total: the start colour, one blend at ratio one
    half, and the end colour.  From ["#000000"] to ["#FFFFFF"] they are
    ["#000000"], ["#636363"] and ["#ffffff"]. *)
Theorem default_midpoints :
  (forall start end_ : string, call start end_ None = call start end_ (Some 1%Z))
  /\ (forall hs he : Z,
        exists s0 s1 s2 : Swatch,
          generate_sequence hs he 1 = [s0; s1; s2]
          /\ color s0
             = oklabMix (hexToLinearRGB (of_int hs)) (hexToLinearRGB (of_int he)) (Fin 0)
          /\ color s1
             = oklabMix (hexToLinearRGB (of_int hs)) (hexToLinearRGB (of_int he))
                 (Fin (1 / 2))
          /\ color s2
             = oklabMix (hexToLinearRGB (of_int hs)) (hexToLinearRGB (of_int he)) (Fin 1)
          /\ ((0 <= hs <= 0xFFFFFF)%Z -> hexColor s0 = hs)
          /\ ((0 <= he <= 0xFFFFFF)%Z -> hexColor s2 = he))
  /\ call "#000000" "#FFFFFF" None
     = Ok (preamble "#000000" "#FFFFFF" 1
           ++ map swatchLine (generate_sequence 0x000000 0xFFFFFF 1))%list
  /\ map hexColor (generate_sequence 0x000000 0xFFFFFF 1)
     = [0x000000; 0x636363; 0xFFFFFF]%Z
  /\ map hexString (generate_sequence 0x000000 0xFFFFFF 1)
     = ["#000000"; "#636363"; "#ffffff"].
Proof.
  split; [exact call_default |]. split; [| split; [| split]].
  - intros hs he. rewrite sequence_of_one. do 3 eexists. split; [reflexivity |].
    rewrite color_middle, color_first, (color_last _ _ 2) by lia.
    repeat split; intros H; rewrite hexColor_swatch.
    + rewrite color_first by lia. apply mix_start_hex. exact H.
    + rewrite (color_last _ _ 2) by lia. apply mix_end_hex. exact H.
  - rewrite call_default. apply call_ok; [exact parse_black | exact parse_white].
  - exact black_to_white_hex.
  - rewrite (hexString_of_hexColor _ _ (sequence_hexStrings _ _) black_to_white_hex).
    cbn [map]. rewrite !hexToString_digits. reflexivity.
Qed.

(** C3, as the specification states it, fails: with the count 0 the loop
    runs for [i = 0, 1], so red to blue gives the two endpoints and nothing
    between them. *)
Lemma count_zero_not_three :
  call "#FF0000" "#0000FF" (Some 0%Z)
  = Ok (preamble "#FF0000" "#0000FF" 0
        ++ map swatchLine (generate_sequence 0xFF0000 0x0000FF 0))%list
  /\ List.length (generate_sequence 0xFF0000 0x0000FF 0) = 2%nat
  /\ List.length (generate_sequence 0xFF0000 0x0000FF 0) <> 3%nat.
Proof.
  split.
  - apply call_ok; [exact parse_red | exact parse_blue].
  - rewrite sequence_of_zero. split; [reflexivity | discriminate].
Qed.

(** C3, amended.  Mixing ["#FF0000"] and ["#0000FF"] with the midpoint count
    1 gives exactly three colours.  The middle one is the blend through the
    cone space at ratio one half, ["#a17397"]; each of its channels is more
    than 16 away from the channel of the naive average ["#800080"]. *)
Theorem red_blue_midpoint :
  call "#FF0000" "#0000FF" (Some 1%Z)
  = Ok (preamble "#FF0000" "#0000FF" 1
        ++ map swatchLine (generate_sequence 0xFF0000 0x0000FF 1))%list
  /\ (exists s0 s1 s2 : Swatch,
        generate_sequence 0xFF0000 0x0000FF 1 = [s0; s1; s2]
        /\ color s1
           = oklabMix (hexToLinearRGB (of_int 0xFF0000)) (hexToLinearRGB (of_int 0x0000FF))
               (Fin (1 / 2))
        /\ hexColor s1 = linearRGBtoHex (color s1)
        /\ hexColor s1 = 0xA17397%Z)
  /\ map hexColor (generate_sequence 0xFF0000 0x0000FF 1)
     = [0xFF0000; 0xA17397; 0x0000FF]%Z
  /\ map hexString (generate_sequence 0xFF0000 0x0000FF 1)
     = ["#ff0000"; "#a17397"; "#0000ff"]
  /\ (16 < Z.abs (redOf 0xA17397 - redOf 0x800080))%Z
  /\ (16 < Z.abs (greenOf 0xA17397 - greenOf 0x800080))%Z
  /\ (16 < Z.abs (blueOf 0xA17397 - blueOf 0x800080))%Z.
Proof.
  split; [apply call_ok; [exact parse_red | exact parse_blue] |].
  split; [| split; [exact red_to_blue_hex | split]].
  - rewrite sequence_of_one. do 3 eexists. split; [reflexivity |].
    split; [apply color_middle |]. split; [apply hexColor_swatch |].
    rewrite hexColor_swatch, color_middle, decode_red, decode_blue.
    exact red_blue_half.
  - rewrite (hexString_of_hexColor _ _ (sequence_hexStrings _ _) red_to_blue_hex).
    cbn [map]. rewrite !hexToString_digits. reflexivity.
  - repeat split; vm_compute; reflexivity.
Qed.

(** * Further properties of the program *)

(** ** Colour strings: printing and parsing compose *)

Section StringRoundTrips.

Ltac ascii_cases c := destruct c as [[] [] [] [] [] [] [] []].

Lemma hexChar_isHexDigit (d : Z) : isHexDigit (hexChar d) = true.
Proof.
  destruct (Z.to_nat d) as [| n] eqn:E; unfold hexChar; rewrite E; [reflexivity |].
  do 15 (destruct n as [| n]; [reflexivity |]). reflexivity.
Qed.

Lemma hexDigitValue_hexChar (d : Z) : (0 <= d < 16)%Z -> hexDigitValue (hexChar d) = d.
Proof.
  intros Hd. apply Z.eqb_eq.
  apply (below_forallb (fun d => (hexDigitValue (hexChar d) =? d)%Z) 16);
    [vm_compute; reflexivity | lia].
Qed.

Lemma hexChar_hexDigitValue (c : ascii) :
  isHexDigit c = true -> hexChar (hexDigitValue c) = lowerChar c.
Proof. ascii_cases c; intros H; try discriminate H; reflexivity. Qed.

Lemma lowerChar_facts (c : ascii) :
  (lowerChar c =? "#")%char = (c =? "#")%char
  /\ isHexDigit (lowerChar c) = isHexDigit c
  /\ lowerChar (lowerChar c) = lowerChar c
  /\ (isHexDigit c = true -> hexDigitValue (lowerChar c) = hexDigitValue c).
Proof.
  ascii_cases c; (split; [reflexivity |]); (split; [reflexivity |]);
    (split; [reflexivity |]); intros H; try discriminate H; reflexivity.
Qed.

Lemma nibbles_of_byte (r : Z) : (0 <= r < 256)%Z -> (0 <= r / 16 < 16 /\ 0 <= r mod 16 < 16)%Z.
Proof. intros H. Z.div_mod_to_equations. lia. Qed.

Lemma byte_of_nibbles (r : Z) : (r / 16 * 16 + r mod 16 = r)%Z.
Proof. Z.div_mod_to_equations. lia. Qed.

Lemma low24_of_bytes (z : Z) :
  ((z / 2 ^ 16) mod 256 * 65536 + (z / 2 ^ 8) mod 256 * 256 + z mod 256
   = z mod 2 ^ 24)%Z.
Proof.
  change (2 ^ 16)%Z with 65536%Z. change (2 ^ 8)%Z with 256%Z.
  change (2 ^ 24)%Z with 16777216%Z. Z.div_mod_to_equations. lia.
Qed.

Lemma digits_of_bytes (r g b : Z) :
  (0 <= r < 256)%Z -> (0 <= g < 256)%Z -> (0 <= b < 256)%Z ->
  (((r * 65536 + g * 256 + b) / 2 ^ 16) mod 256 = r
   /\ ((r * 65536 + g * 256 + b) / 2 ^ 8) mod 256 = g
   /\ (r * 65536 + g * 256 + b) mod 256 = b)%Z.
Proof.
  intros Hr Hg Hb. change (2 ^ 16)%Z with 65536%Z. change (2 ^ 8)%Z with 256%Z.
  repeat split; Z.div_mod_to_equations; lia.
Qed.

Lemma nibbles_of_pair (h l : Z) :
  (0 <= h < 16)%Z -> (0 <= l < 16)%Z ->
  ((h * 16 + l) / 16 = h /\ (h * 16 + l) mod 16 = l /\ 0 <= h * 16 + l < 256)%Z.
Proof. intros Hh Hl. repeat split; try lia; Z.div_mod_to_equations; lia. Qed.

(** What [hexToString] prints is a well-formed colour string whose digits
    spell the low 24 bits. *)
Lemma parse_printed (r g b : Z) :
  (0 <= r < 256)%Z -> (0 <= g < 256)%Z -> (0 <= b < 256)%Z ->
  parse_hex_string (String "#" (hexByte r (hexByte g (hexByte b ""))))
  = Ok (of_int (r * 65536 + g * 256 + b)).
Proof.
  intros Hr Hg Hb. unfold parse_hex_string, wellFormed, colourDigits, hexByte.
  rewrite Ascii.eqb_refl. cbn [list_ascii_of_string List.length forallb Nat.eqb].
  rewrite !hexChar_isHexDigit. cbn [andb]. do 2 f_equal.
  unfold hexValue. cbn [fold_left].
  destruct (nibbles_of_byte r Hr) as [R1 R2].
  destruct (nibbles_of_byte g Hg) as [G1 G2].
  destruct (nibbles_of_byte b Hb) as [B1 B2].
  rewrite !hexDigitValue_hexChar by assumption.
  pose proof (byte_of_nibbles r). pose proof (byte_of_nibbles g).
  pose proof (byte_of_nibbles b). lia.
Qed.

End StringRoundTrips.

Section StringTheorems.

Lemma colourDigits_lower (s : string) :
  colourDigits (lowerString s) = map lowerChar (colourDigits s).
Proof.
  assert (L : forall t, list_ascii_of_string (lowerString t)
                        = map lowerChar (list_ascii_of_string t)).
  { induction t as [| c t IH]; [reflexivity |]. cbn. rewrite IH. reflexivity. }
  destruct s as [| c t]; [reflexivity |].
  cbn [lowerString colourDigits].
  destruct (lowerChar_facts c) as (-> & _).
  destruct (c =? "#")%char; [apply L |].
  change (String (lowerChar c) (lowerString t)) with (lowerString (String c t)).
  apply L.
Qed.

Lemma forallb_lower (ds : list ascii) :
  forallb isHexDigit (map lowerChar ds) = forallb isHexDigit ds.
Proof.
  induction ds as [| c ds IH]; [reflexivity |]. cbn [map forallb].
  destruct (lowerChar_facts c) as (_ & -> & _). rewrite IH. reflexivity.
Qed.

Lemma hexValue_lower (ds : list ascii) :
  forallb isHexDigit ds = true -> hexValue (map lowerChar ds) = hexValue ds.
Proof.
  unfold hexValue. generalize 0%Z.
  induction ds as [| c ds IH]; intros a H; [reflexivity |].
  cbn [map fold_left]. cbn [forallb] in H. apply andb_true_iff in H as [Hc H].
  destruct (lowerChar_facts c) as (_ & _ & _ & E). rewrite (E Hc). apply IH. exact H.
Qed.

Lemma stringToHex_lower (s : string) : stringToHex (lowerString s) = stringToHex s.
Proof.
  rewrite !stringToHex_parse. unfold parse_hex_string, wellFormed.
  rewrite colourDigits_lower, length_map, forallb_lower.
  destruct ((List.length (colourDigits s) =? 6)%nat && forallb isHexDigit (colourDigits s))
    eqn:H; [| reflexivity].
  apply andb_true_iff in H as [_ H]. rewrite hexValue_lower by exact H. reflexivity.
Qed.

End StringTheorems.

(** X1.  What [hexToString] prints, [stringToHex] reads back: for every
    integer, parsing the printed string succeeds and returns the low 24 bits
    of the integer. *)
Theorem print_then_parse (z : Z) :
  stringToHex (hexToString (of_int z)) = Ok (of_int (z mod 2 ^ 24)).
Proof.
  rewrite hexToString_digits, stringToHex_parse.
  rewrite parse_printed by (apply Z.mod_pos_bound; lia).
  rewrite low24_of_bytes. reflexivity.
Qed.

(** X2.  Whenever [stringToHex] accepts a string, printing the value it
    returns gives the canonical form of the string: ['#'] followed by the six
    digits in lowercase. *)
Theorem parse_then_print (s : string) (v : number) :
  stringToHex s = Ok v -> hexToString v = canonical s.
Proof.
  rewrite stringToHex_parse. unfold parse_hex_string, wellFormed.
  destruct ((List.length (colourDigits s) =? 6)%nat && forallb isHexDigit (colourDigits s))
    eqn:H; [| discriminate].
  intros E. injection E as <-. apply andb_true_iff in H as [Hl Hf].
  apply Nat.eqb_eq in Hl. unfold canonical.
  destruct (colourDigits s) as [| c1 [| c2 [| c3 [| c4 [| c5 [| c6 [| c7 ds]]]]]]];
    try discriminate Hl.
  cbn [forallb] in Hf.
  repeat (apply andb_true_iff in Hf as [?Hc Hf]).
  rewrite hexToString_digits. unfold hexValue. cbn [fold_left map string_of_list_ascii].
  rewrite <- !hexChar_hexDigitValue by assumption.
  destruct (hexDigit_facts c1 Hc) as (_ & _ & _ & _ & _ & _ & _ & U1 & L1).
  destruct (hexDigit_facts c2 Hc0) as (_ & _ & _ & _ & _ & _ & _ & U2 & L2).
  destruct (hexDigit_facts c3 Hc1) as (_ & _ & _ & _ & _ & _ & _ & U3 & L3).
  destruct (hexDigit_facts c4 Hc2) as (_ & _ & _ & _ & _ & _ & _ & U4 & L4).
  destruct (hexDigit_facts c5 Hc3) as (_ & _ & _ & _ & _ & _ & _ & U5 & L5).
  destruct (hexDigit_facts c6 Hc4) as (_ & _ & _ & _ & _ & _ & _ & U6 & L6).
  apply Z.ltb_lt in U1, U2, U3, U4, U5, U6.
  set (d1 := hexDigitValue c1) in *. set (d2 := hexDigitValue c2) in *.
  set (d3 := hexDigitValue c3) in *. set (d4 := hexDigitValue c4) in *.
  set (d5 := hexDigitValue c5) in *. set (d6 := hexDigitValue c6) in *.
  destruct (nibbles_of_pair d1 d2) as (N1 & N2 & N3); try lia.
  destruct (nibbles_of_pair d3 d4) as (N4 & N5 & N6); try lia.
  destruct (nibbles_of_pair d5 d6) as (N7 & N8 & N9); try lia.
  replace (16 * (16 * (16 * (16 * (16 * (16 * 0 + d1) + d2) + d3) + d4) + d5) + d6)%Z
    with ((d1 * 16 + d2) * 65536 + (d3 * 16 + d4) * 256 + (d5 * 16 + d6))%Z by lia.
  destruct (digits_of_bytes (d1 * 16 + d2) (d3 * 16 + d4) (d5 * 16 + d6))
    as (-> & -> & ->); try lia.
  unfold hexByte. rewrite N1, N2, N4, N5, N7, N8. reflexivity.
Qed.

Lemma parse_then_print_witness :
  stringToHex "#Ff00fF" = Ok (of_int 0xFF00FF)
  /\ hexToString (of_int 0xFF00FF) = canonical "#Ff00fF".
Proof.
  assert (H : stringToHex "#Ff00fF" = Ok (of_int 0xFF00FF)) by (vm_compute; reflexivity).
  split; [exact H |]. exact (parse_then_print _ _ H).
Defined.

(** X3.  [stringToHex] ignores the case of letters: two strings with the same
    lowercase form are both refused, or both accepted with the same value. *)
Theorem parse_case_insensitive (s t : string) :
  lowerString s = lowerString t -> stringToHex s = stringToHex t.
Proof.
  intros H. rewrite <- (stringToHex_lower s), <- (stringToHex_lower t), H. reflexivity.
Qed.

Lemma parse_case_insensitive_witness :
  lowerString "#aBcDeF" = lowerString "#AbCdEf"
  /\ stringToHex "#aBcDeF" = stringToHex "#AbCdEf".
Proof.
  assert (H : lowerString "#aBcDeF" = lowerString "#AbCdEf") by reflexivity.
  split; [exact H |]. exact (parse_case_insensitive _ _ H).
Defined.

(** ** Arguments that are not 24-bit integers *)

Section AnyNumber.

Lemma ToInt32_range (a : number) : (- 2 ^ 31 <= ToInt32 a < 2 ^ 31)%Z.
Proof. destruct a; simpl; [apply wrap32_range | lia | lia | lia]. Qed.

Lemma ToInt32_idem (a : number) : ToInt32 (of_int (ToInt32 a)) = ToInt32 a.
Proof. rewrite ToInt32_of_int. apply wrap32_small. apply ToInt32_range. Qed.

Lemma hexToString_ToInt32 (a : number) : hexToString a = hexToString (of_int (ToInt32 a)).
Proof. unfold hexToString. rewrite ToInt32_idem. reflexivity. Qed.

Lemma hexToLinearRGB_ToInt32 (a : number) :
  hexToLinearRGB a = hexToLinearRGB (of_int (ToInt32 a)).
Proof. unfold hexToLinearRGB. rewrite ToInt32_idem. reflexivity. Qed.

Lemma blueOf_digit (z : Z) : blueOf (wrap32 z) = (z mod 256)%Z.
Proof.
  pose proof (channel_digit z 0) as H. unfold sar in H.
  rewrite Z.mod_0_l, Z.shiftr_0_r in H by lia. unfold blueOf. rewrite H by lia.
  rewrite Z.pow_0_r, Z.div_1_r. reflexivity.
Qed.

Lemma redOf_digit (z : Z) : redOf (wrap32 z) = ((z / 2 ^ 16) mod 256)%Z.
Proof. unfold redOf. apply channel_digit. lia. Qed.

Lemma greenOf_digit (z : Z) : greenOf (wrap32 z) = ((z / 2 ^ 8) mod 256)%Z.
Proof. unfold greenOf. apply channel_digit. lia. Qed.

Lemma hexToLinearRGB_low24 (z : Z) :
  hexToLinearRGB (of_int z) = hexToLinearRGB (of_int (z mod 2 ^ 24)).
Proof.
  rewrite !hexToLinearRGB_Fin, !redOf_digit, !greenOf_digit, !blueOf_digit.
  rewrite (digit_of_low24 z 16), (digit_of_low24 z 8) by lia.
  pose proof (digit_of_low24 z 0) as H.
  rewrite Z.pow_0_r, !Z.div_1_r in H. rewrite H by lia. reflexivity.
Qed.

Lemma roundtrip_low24 (z : Z) :
  linearRGBtoHex (hexToLinearRGB (of_int z)) = (z mod 2 ^ 24)%Z.
Proof.
  rewrite hexToLinearRGB_low24. apply roundtrip_exact.
  pose proof (Z.mod_pos_bound z (2 ^ 24)). lia.
Qed.

Lemma quantise_NaN : quantise (encodeChannel NaN) = 0%Z.
Proof.
  unfold quantise, encodeChannel. rewrite le_NaN_l, gamma_Fin, pow_NaN_l by lra.
  reflexivity.
Qed.

Lemma quantise_PosInf : quantise (encodeChannel PosInf) = 0%Z.
Proof.
  unfold quantise, encodeChannel. cbn [le]. rewrite gamma_Fin. unfold pow.
  rewrite Reqb_false by lra. rewrite Rltb_true by lra.
  do 3 (cbn [mul sub add neg]; unfold scale_inf;
        rewrite ?Reqb_false by lra; rewrite ?Rltb_true by lra).
  reflexivity.
Qed.

Lemma quantise_NegInf : quantise (encodeChannel NegInf) = 0%Z.
Proof.
  unfold quantise, encodeChannel. cbn [le].
  do 3 (cbn [mul sub add neg]; unfold scale_inf;
        rewrite ?Reqb_false by lra; rewrite ?Rltb_true by lra).
  reflexivity.
Qed.

Lemma quantise_zero : quantise (encodeChannel (Fin 0)) = 0%Z.
Proof. rewrite encodeChannel_Fin, quantise_Fin. apply quantised_zero. Qed.

Lemma quantise_nonfinite (a : number) :
  (forall x : R, a <> Fin x) -> quantise (encodeChannel a) = quantise (encodeChannel (Fin 0)).
Proof.
  intros H. rewrite quantise_zero. destruct a as [x | | |].
  - destruct (H x). reflexivity.
  - apply quantise_PosInf.
  - apply quantise_NegInf.
  - apply quantise_NaN.
Qed.

End AnyNumber.

(** X4.  [hexToString] converts its argument to a 32-bit integer first, so it
    prints ['#'] and six lowercase hexadecimal digits at every number: a
    fraction is cut off toward zero, and [NaN] and the infinities print as
    ["#000000"]. *)
Theorem hexToString_any_number (a : number) :
  hexToString a = hexToString (of_int (ToInt32 a))
  /\ (exists ds : list ascii,
        hexToString a = String "#" (string_of_list_ascii ds)
        /\ List.length ds = 6%nat
        /\ forallb isLowerHexDigit ds = true)
  /\ (forall x : R, hexToString (Fin x) = hexToString (of_int (trunc x)))
  /\ hexToString NaN = "#000000"
  /\ hexToString PosInf = "#000000"
  /\ hexToString NegInf = "#000000".
Proof.
  split; [apply hexToString_ToInt32 |]. split; [| split].
  - rewrite hexToString_ToInt32, hexToString_digits. unfold hexByte.
    eexists [_; _; _; _; _; _]. split; [reflexivity |]. split; [reflexivity |].
    cbn [forallb]. rewrite !hexChar_lower. reflexivity.
  - intros x. unfold hexToString. rewrite ToInt32_of_int. reflexivity.
  - rewrite (hexToString_ToInt32 NaN), (hexToString_ToInt32 PosInf),
      (hexToString_ToInt32 NegInf). cbn [ToInt32].
    rewrite hexToString_digits. repeat split; reflexivity.
Qed.

(** X5.  [hexToLinearRGB] reads nothing but the three low bytes of its
    argument converted to a 32-bit integer, and whatever the argument, the
    colour it returns is in gamut: three finite channels in the unit
    interval.  [NaN] decodes to black. *)
Theorem hexToLinearRGB_any_number (a : number) :
  hexToLinearRGB a = hexToLinearRGB (of_int (ToInt32 a mod 2 ^ 24))
  /\ inGamut (hexToLinearRGB a)
  /\ hexToLinearRGB NaN = V3 0%R 0%R 0%R.
Proof.
  split; [| split].
  - rewrite hexToLinearRGB_ToInt32. apply hexToLinearRGB_low24.
  - rewrite hexToLinearRGB_ToInt32. apply hexToLinearRGB_inGamut.
  - rewrite hexToLinearRGB_ToInt32. cbn [ToInt32]. apply decode_black.
Qed.

(** X6.  Decoding any number and encoding the result gives the low 24 bits
    of the number's 32-bit integer value: the round trip of C5 extends to
    arguments outside the 24-bit range, where it drops the high byte. *)
Theorem decode_then_encode (a : number) :
  linearRGBtoHex (hexToLinearRGB a) = (ToInt32 a mod 2 ^ 24)%Z.
Proof. rewrite hexToLinearRGB_ToInt32. apply roundtrip_low24. Qed.

(** X7.  A channel that is [NaN] or infinite is packed exactly like a channel
    equal to zero, in each of the three positions: no error, no mark. *)
Theorem nonfinite_channel_packs_as_zero (a u v : number) :
  (forall x : R, a <> Fin x) ->
  linearRGBtoHex (V3 a u v) = linearRGBtoHex (V3 0%R u v)
  /\ linearRGBtoHex (V3 u a v) = linearRGBtoHex (V3 u 0%R v)
  /\ linearRGBtoHex (V3 u v a) = linearRGBtoHex (V3 u v 0%R).
Proof.
  intros H. rewrite !linearRGBtoHex_linear_to_hex. unfold linear_to_hex.
  cbn [ix0 ix1 ix2]. rewrite (quantise_nonfinite a H). auto.
Qed.

Lemma nonfinite_channel_packs_as_zero_witness :
  (forall x : R, NaN <> Fin x)
  /\ linearRGBtoHex (V3 NaN 1%R 1%R) = linearRGBtoHex (V3 0%R 1%R 1%R).
Proof.
  assert (H : forall x : R, NaN <> Fin x) by (intros x; discriminate).
  split; [exact H |].
  exact (proj1 (nonfinite_channel_packs_as_zero NaN 1%R 1%R H)).
Defined.

(** ** The transfer functions on the gamut *)

Section TransferFunctions.

Local Open Scope R_scope.

Lemma gamma_root_lower (x : R) : 0.0031308 <= x -> 0.0904 <= Rpower x (1 / 2.4).
Proof.
  intros Hx. apply (Rpower_ge x _ _ 5 12); [lra | lia | exact exponent_encode | lra |].
  apply Rle_trans with (0.0031308 ^ 5); [lra | apply pow_incr; lra].
Qed.

Lemma gamma_root_upper (x : R) : 0 < x <= 1 -> Rpower x (1 / 2.4) <= 1.
Proof.
  intros Hx. rewrite <- (Rpower_one_base (1 / 2.4)) at 2. apply Rle_Rpower_l; lra.
Qed.

Lemma srgb_encode_unit (x : R) : 0 <= x <= 1 -> 0 <= srgb_encode x <= 1.
Proof.
  intros Hx. unfold srgb_encode. destruct (Rle_dec x 0.0031308) as [Hle | Hgt].
  - rewrite Rleb_true by exact Hle. lra.
  - rewrite Rleb_false by lra.
    pose proof (gamma_root_lower x ltac:(lra)). pose proof (gamma_root_upper x ltac:(lra)).
    lra.
Qed.

Lemma trunc_monotone_nonneg (x y : R) : 0 <= x <= y -> (trunc x <= trunc y)%Z.
Proof.
  intros H. unfold trunc. rewrite !Rleb_true by lra. apply Zfloor_le. lra.
Qed.

Lemma trunc_byte (y : R) : 0 <= y < 256 -> (0 <= trunc y <= 255)%Z.
Proof.
  intros Hy. unfold trunc. rewrite Rleb_true by lra. split.
  - apply Zfloor_lub. simpl. lra.
  - pose proof (Zfloor_bound y) as [Hl _].
    assert (IZR (Zfloor y) < 256) by lra. apply lt_IZR in H. lia.
Qed.

(** The byte a channel in the unit interval is packed as. *)
Lemma quantised_byte (x : R) :
  0 <= x <= 1 ->
  wrap32 (trunc (srgb_encode x * 255 + 0.5)) = trunc (srgb_encode x * 255 + 0.5)
  /\ (0 <= trunc (srgb_encode x * 255 + 0.5) <= 255)%Z.
Proof.
  intros Hx. pose proof (srgb_encode_unit x Hx) as He.
  assert (Hb : (0 <= trunc (srgb_encode x * 255 + 0.5) <= 255)%Z)
    by (apply trunc_byte; lra).
  split; [apply wrap32_small; lia | exact Hb].
Qed.

(** Across the break of the encoder the encoded value dips by a few parts
    in [10^8], far too little to move a byte. *)
Lemma quantised_monotone (x y : R) :
  0 <= x <= y -> y <= 1 ->
  (trunc (srgb_encode x * 255 + 0.5) <= trunc (srgb_encode y * 255 + 0.5))%Z.
Proof.
  intros Hxy Hy.
  pose proof (srgb_encode_unit x ltac:(lra)) as Ex.
  pose proof (srgb_encode_unit y ltac:(lra)) as Ey.
  destruct (Rle_dec y 0.0031308) as [Hyl | Hyh];
    [| destruct (Rle_dec x 0.0031308) as [Hxl | Hxh]].
  - apply trunc_monotone_nonneg. unfold srgb_encode. rewrite !Rleb_true by lra. lra.
  - apply Z.le_trans with 10%Z.
    + assert (H : (trunc (srgb_encode x * 255 + 0.5) < 11)%Z); [| lia].
      apply lt_IZR. unfold trunc. rewrite Rleb_true by lra.
      pose proof (Zfloor_bound (srgb_encode x * 255 + 0.5)) as [Hl _].
      unfold srgb_encode in *. rewrite Rleb_true in * by lra. lra.
    + unfold trunc. rewrite Rleb_true by lra. apply Zfloor_lub.
      pose proof (gamma_root_lower y ltac:(lra)).
      unfold srgb_encode. rewrite Rleb_false by lra. lra.
  - apply trunc_monotone_nonneg.
    assert (Rpower x (1 / 2.4) <= Rpower y (1 / 2.4)) by (apply Rle_Rpower_l; lra).
    pose proof (gamma_root_lower x ltac:(lra)).
    unfold srgb_encode. rewrite !Rleb_false by lra. lra.
Qed.

Lemma linearRGBtoHex_bytes (r g b : R) :
  0 <= r <= 1 -> 0 <= g <= 1 -> 0 <= b <= 1 ->
  linearRGBtoHex (V3 (Fin r) (Fin g) (Fin b))
  = (trunc (srgb_encode r * 255 + 0.5) * 65536
     + trunc (srgb_encode g * 255 + 0.5) * 256
     + trunc (srgb_encode b * 255 + 0.5))%Z.
Proof.
  intros Hr Hg Hb. rewrite linearRGBtoHex_Fin.
  destruct (quantised_byte r Hr) as [-> Br].
  destruct (quantised_byte g Hg) as [-> Bg].
  destruct (quantised_byte b Hb) as [-> Bb].
  apply pack_bytes; assumption.
Qed.

(** Decoding is strictly increasing from byte to byte. *)
Lemma srgb_decode_increasing (c1 c2 : Z) :
  (0 <= c1 < c2)%Z -> (c2 <= 255)%Z ->
  srgb_decode (IZR c1 / 255) < srgb_decode (IZR c2 / 255).
Proof.
  intros H1 H2.
  assert (L1 : 0 <= IZR c1) by (apply IZR_le; lia).
  assert (L2 : IZR c1 < IZR c2) by (apply IZR_lt; lia).
  destruct (byte_level c1 ltac:(lia)) as [A1 | A1];
    destruct (byte_level c2 ltac:(lia)) as [A2 | A2].
  - rewrite !srgb_decode_low by assumption. lra.
  - rewrite srgb_decode_low, srgb_decode_high by assumption.
    pose proof (decoded_high_bound _ A2). lra.
  - lra.
  - rewrite !srgb_decode_high by assumption. apply Rlt_Rpower_l; lra.
Qed.

End TransferFunctions.

(** X8.  On a colour in gamut [linearRGBtoHex] needs no clamping: the packed
    value is a 24-bit colour, and each of its channels is a byte that lies
    within [0.51] of 255 times the encoded channel. *)
Theorem linearRGBtoHex_in_gamut (r g b : R) :
  inGamut (V3 (Fin r) (Fin g) (Fin b)) ->
  (0 <= linearRGBtoHex (V3 (Fin r) (Fin g) (Fin b)) <= 0xFFFFFF)%Z
  /\ (Rabs (IZR (redOf (linearRGBtoHex (V3 (Fin r) (Fin g) (Fin b))))
            - 255 * srgb_encode r) <= 0.51)%R
  /\ (Rabs (IZR (greenOf (linearRGBtoHex (V3 (Fin r) (Fin g) (Fin b))))
            - 255 * srgb_encode g) <= 0.51)%R
  /\ (Rabs (IZR (blueOf (linearRGBtoHex (V3 (Fin r) (Fin g) (Fin b))))
            - 255 * srgb_encode b) <= 0.51)%R.
Proof.
  unfold inGamut, inUnit; cbn [ix0 ix1 ix2]. intros (Hr & Hg & Hb).
  rewrite linearRGBtoHex_bytes by assumption.
  destruct (quantised_byte r Hr) as [_ Br].
  destruct (quantised_byte g Hg) as [_ Bg].
  destruct (quantised_byte b Hb) as [_ Bb].
  pose proof (srgb_encode_unit r Hr). pose proof (srgb_encode_unit g Hg).
  pose proof (srgb_encode_unit b Hb).
  destruct (channels_of_bytes _ _ _ Br Bg Bb) as (-> & -> & ->).
  split; [lia |].
  pose proof (trunc_half_up (srgb_encode r * 255) ltac:(lra)).
  pose proof (trunc_half_up (srgb_encode g * 255) ltac:(lra)).
  pose proof (trunc_half_up (srgb_encode b * 255) ltac:(lra)).
  repeat split; apply Rabs_le; lra.
Qed.

Lemma linearRGBtoHex_in_gamut_witness :
  inGamut (V3 (Fin 0.5) (Fin 0.25) (Fin 1))
  /\ (0 <= linearRGBtoHex (V3 (Fin 0.5) (Fin 0.25) (Fin 1)) <= 0xFFFFFF)%Z.
Proof.
  assert (H : inGamut (V3 (Fin 0.5) (Fin 0.25) (Fin 1))) by (unfold inGamut; simpl; lra).
  split; [exact H |]. exact (proj1 (linearRGBtoHex_in_gamut 0.5 0.25 1 H)).
Defined.

(** X9.  On the gamut [linearRGBtoHex] is monotone in each channel: a
    channel that is not darker never packs to a smaller byte, although the
    encoder itself dips slightly at its break point. *)
Theorem linearRGBtoHex_monotone (r1 g1 b1 r2 g2 b2 : R) :
  inGamut (V3 (Fin r1) (Fin g1) (Fin b1)) ->
  inGamut (V3 (Fin r2) (Fin g2) (Fin b2)) ->
  ((r1 <= r2)%R ->
     (redOf (linearRGBtoHex (V3 (Fin r1) (Fin g1) (Fin b1)))
      <= redOf (linearRGBtoHex (V3 (Fin r2) (Fin g2) (Fin b2))))%Z)
  /\ ((g1 <= g2)%R ->
        (greenOf (linearRGBtoHex (V3 (Fin r1) (Fin g1) (Fin b1)))
         <= greenOf (linearRGBtoHex (V3 (Fin r2) (Fin g2) (Fin b2))))%Z)
  /\ ((b1 <= b2)%R ->
        (blueOf (linearRGBtoHex (V3 (Fin r1) (Fin g1) (Fin b1)))
         <= blueOf (linearRGBtoHex (V3 (Fin r2) (Fin g2) (Fin b2))))%Z).
Proof.
  unfold inGamut, inUnit; cbn [ix0 ix1 ix2]. intros (Hr1 & Hg1 & Hb1) (Hr2 & Hg2 & Hb2).
  rewrite !linearRGBtoHex_bytes by assumption.
  destruct (quantised_byte r1 Hr1) as [_ Br1]. destruct (quantised_byte g1 Hg1) as [_ Bg1].
  destruct (quantised_byte b1 Hb1) as [_ Bb1]. destruct (quantised_byte r2 Hr2) as [_ Br2].
  destruct (quantised_byte g2 Hg2) as [_ Bg2]. destruct (quantised_byte b2 Hb2) as [_ Bb2].
  destruct (channels_of_bytes _ _ _ Br1 Bg1 Bb1) as (-> & -> & ->).
  destruct (channels_of_bytes _ _ _ Br2 Bg2 Bb2) as (-> & -> & ->).
  repeat split; intros H; apply quantised_monotone; lra.
Qed.

Lemma linearRGBtoHex_monotone_witness :
  inGamut (V3 (Fin 0) (Fin 0) (Fin 0)) /\ inGamut (V3 (Fin 1) (Fin 1) (Fin 1))
  /\ (redOf (linearRGBtoHex (V3 (Fin 0) (Fin 0) (Fin 0)))
      <= redOf (linearRGBtoHex (V3 (Fin 1) (Fin 1) (Fin 1))))%Z.
Proof.
  assert (H0 : inGamut (V3 (Fin 0) (Fin 0) (Fin 0))) by (unfold inGamut; simpl; lra).
  assert (H1 : inGamut (V3 (Fin 1) (Fin 1) (Fin 1))) by (unfold inGamut; simpl; lra).
  split; [exact H0 |]. split; [exact H1 |].
  apply (proj1 (linearRGBtoHex_monotone 0 0 0 1 1 1 H0 H1)). lra.
Defined.

(** X10.  [hexToLinearRGB] is strictly increasing in each channel: a larger
    byte always decodes to a larger linear value, across the break of the
    decoder too, so distinct 24-bit colours decode to distinct colours. *)
Theorem hexToLinearRGB_increasing (z1 z2 : Z) :
  ((redOf (wrap32 z1) < redOf (wrap32 z2))%Z ->
     exists x1 x2 : R,
       ix0 (hexToLinearRGB (of_int z1)) = Fin x1
       /\ ix0 (hexToLinearRGB (of_int z2)) = Fin x2 /\ (x1 < x2)%R)
  /\ ((greenOf (wrap32 z1) < greenOf (wrap32 z2))%Z ->
        exists x1 x2 : R,
          ix1 (hexToLinearRGB (of_int z1)) = Fin x1
          /\ ix1 (hexToLinearRGB (of_int z2)) = Fin x2 /\ (x1 < x2)%R)
  /\ ((blueOf (wrap32 z1) < blueOf (wrap32 z2))%Z ->
        exists x1 x2 : R,
          ix2 (hexToLinearRGB (of_int z1)) = Fin x1
          /\ ix2 (hexToLinearRGB (of_int z2)) = Fin x2 /\ (x1 < x2)%R).
Proof.
  rewrite !hexToLinearRGB_Fin. cbn [ix0 ix1 ix2].
  pose proof (redOf_byte (wrap32 z1)). pose proof (redOf_byte (wrap32 z2)).
  pose proof (greenOf_byte (wrap32 z1)). pose proof (greenOf_byte (wrap32 z2)).
  pose proof (blueOf_byte (wrap32 z1)). pose proof (blueOf_byte (wrap32 z2)).
  repeat split; intros Hlt; do 2 eexists;
    (split; [reflexivity |]); (split; [reflexivity |]);
    apply srgb_decode_increasing; lia.
Qed.

(** ** The mixing engine: basis changes, ratios and neutral colours *)

Section MixingFacts.

Local Open Scope R_scope.

Lemma blend_same (x h : R) : 0 <= x -> blend x x h = x.
Proof.
  intros Hx. unfold blend, lerp, cube.
  replace (cbrt x * (1 - h) + cbrt x * h) with (cbrt x) by ring.
  apply cbrt_cube. exact Hx.
Qed.

Lemma blend_swap (x y h : R) : blend x y h = blend y x (1 - h).
Proof. unfold blend, lerp. f_equal. ring. Qed.

Lemma cbrt_le_one (x : R) : 0 <= x <= 1 -> 0 <= cbrt x <= 1.
Proof.
  intros Hx. split; [apply cbrt_nonneg; lra |].
  unfold cbrt. destruct (Req_dec_T x 0) as [-> | Hne].
  - rewrite Reqb_true by reflexivity. lra.
  - rewrite Reqb_false by exact Hne.
    apply Rle_trans with (Rpower 1 (1.0 / 3.0));
      [apply Rle_Rpower_l; lra | rewrite Rpower_one_base; lra].
Qed.

Lemma cbrt_scale (a s : R) : 0 <= a -> 0 < s -> cbrt (a * s) = cbrt a * cbrt s.
Proof.
  intros Ha Hs. unfold cbrt. destruct (Req_dec_T a 0) as [-> | Hne].
  - rewrite Rmult_0_l, !Reqb_true by reflexivity. lra.
  - assert (Hpos : 0 < a * s) by (apply Rmult_lt_0_compat; lra).
    rewrite (Reqb_false (a * s)), (Reqb_false a), (Reqb_false s) by lra.
    symmetry. apply Rpower_mult_distr; lra.
Qed.

(** The blend of two scaled cone responses with a common scale. *)
Lemma blend_scale (a b s h : R) :
  0 <= a -> 0 <= b -> 0 < s ->
  blend (a * s) (b * s) h = s * cube (lerp (cbrt a) (cbrt b) h).
Proof.
  intros Ha Hb Hs. unfold blend. rewrite !cbrt_scale by assumption.
  unfold lerp, cube.
  replace s with (cbrt s * cbrt s * cbrt s) at 7 by (apply cbrt_cube; lra).
  ring.
Qed.

Lemma lerp_unit (x y h : R) :
  0 <= x <= 1 -> 0 <= y <= 1 -> 0 <= h <= 1 -> 0 <= lerp x y h <= 1.
Proof. intros Hx Hy Hh. unfold lerp. split; nra. Qed.

Lemma cube_unit (t : R) : 0 <= t <= 1 -> 0 <= cube t <= 1.
Proof.
  intros Ht. destruct (cube_between t 0 1) as [H1 H2]; [lra | lra |].
  simpl in H1, H2. lra.
Qed.

Lemma mix_ratio_NaN (a b : Vec3) : mix a b NaN = V3 NaN NaN NaN.
Proof.
  unfold mix. cbn [sub add neg]. rewrite !mul_NaN_r, !add_NaN_r. reflexivity.
Qed.

Lemma oklabMix_ratio_NaN (colA colB : Vec3) : oklabMix colA colB NaN = V3 NaN NaN NaN.
Proof.
  unfold oklabMix. cbv zeta. rewrite mix_ratio_NaN.
  apply mat3MultiplyVec3_NaN. left. reflexivity.
Qed.

End MixingFacts.

(** X11.  The two constant matrices undo each other in both orders: on a
    colour in gamut, changing basis and changing back moves no channel by
    more than [2e-7]. *)
Theorem basis_changes_inverse (c : Vec3) :
  inGamut c ->
  withinVec 2e-7 (mat3MultiplyVec3 kLMStoCONE (mat3MultiplyVec3 kCONEtoLMS c)) c
  /\ withinVec 2e-7 (mat3MultiplyVec3 kCONEtoLMS (mat3MultiplyVec3 kLMStoCONE c)) c.
Proof.
  intros H. apply inGamut_inv in H as (r & g & b & -> & Hr & Hg & Hb).
  split.
  - rewrite toLMS_Fin, toRGB_Fin.
    destruct (matrices_inverse r g b Hr Hg Hb) as (E0 & E1 & E2).
    unfold withinVec, within; cbn [ix0 ix1 ix2]. repeat split; lra.
  - rewrite toRGB_Fin, toLMS_Fin.
    unfold withinVec, within; cbn [ix0 ix1 ix2].
    unfold lin0, lin1, lin2, cone0, cone1, cone2.
    repeat split; apply Rabs_le; lra.
Qed.

Lemma basis_changes_inverse_witness :
  inGamut (V3 1%R 0%R 0%R)
  /\ withinVec 2e-7
       (mat3MultiplyVec3 kLMStoCONE (mat3MultiplyVec3 kCONEtoLMS (V3 1%R 0%R 0%R)))
       (V3 1%R 0%R 0%R).
Proof.
  assert (H : inGamut (V3 1%R 0%R 0%R)) by (unfold inGamut; simpl; lra).
  split; [exact H |]. exact (proj1 (basis_changes_inverse _ H)).
Defined.

(** X12.  Mixing is symmetric under exchanging the two colours and replacing
    the ratio [h] by [1 - h]: for colours in gamut and a ratio between 0 and
    1 the two results agree within [1e-9] in every channel. *)
Theorem oklabMix_swap (A B : Vec3) (h : R) :
  inGamut A -> inGamut B -> (0 <= h <= 1)%R ->
  withinVec 1e-9 (oklabMix A B (Fin h)) (oklabMix B A (Fin (1 - h))).
Proof.
  intros HA HB Hh.
  apply inGamut_inv in HA as (r1 & g1 & b1 & -> & Hr1 & Hg1 & Hb1).
  apply inGamut_inv in HB as (r2 & g2 & b2 & -> & Hr2 & Hg2 & Hb2).
  rewrite !oklabMix_Fin by lra.
  rewrite (blend_swap (cone0 r1 g1 b1)), (blend_swap (cone1 r1 g1 b1)),
    (blend_swap (cone2 r1 g1 b1)).
  unfold withinVec, within; cbn [ix0 ix1 ix2].
  rewrite !Rminus_diag, Rabs_R0. repeat split; lra.
Qed.

Lemma oklabMix_swap_witness :
  inGamut (V3 1%R 0%R 0%R) /\ inGamut (V3 0%R 0%R 1%R) /\ (0 <= 0.25 <= 1)%R
  /\ withinVec 1e-9 (oklabMix (V3 1%R 0%R 0%R) (V3 0%R 0%R 1%R) (Fin 0.25))
       (oklabMix (V3 0%R 0%R 1%R) (V3 1%R 0%R 0%R) (Fin (1 - 0.25))).
Proof.
  assert (HA : inGamut (V3 1%R 0%R 0%R)) by (unfold inGamut; simpl; lra).
  assert (HB : inGamut (V3 0%R 0%R 1%R)) by (unfold inGamut; simpl; lra).
  assert (Hh : (0 <= 0.25 <= 1)%R) by lra.
  split; [exact HA |]. split; [exact HB |]. split; [exact Hh |].
  exact (oklabMix_swap _ _ 0.25 HA HB Hh).
Defined.

(** X13.  Mixing a colour in gamut with itself gives the colour back at
    every ratio between 0 and 1, each channel within [1e-6]. *)
Theorem oklabMix_same (A : Vec3) (h : R) :
  inGamut A -> (0 <= h <= 1)%R -> withinVec 1e-6 (oklabMix A A (Fin h)) A.
Proof.
  intros HA Hh. apply inGamut_inv in HA as (r & g & b & -> & Hr & Hg & Hb).
  destruct (cone_nonneg r g b) as (C0 & C1 & C2); try lra.
  rewrite oklabMix_Fin by lra. rewrite !blend_same by assumption.
  destruct (matrices_inverse r g b Hr Hg Hb) as (E0 & E1 & E2).
  unfold withinVec, within; cbn [ix0 ix1 ix2]. repeat split; lra.
Qed.

Lemma oklabMix_same_witness :
  inGamut (V3 1%R 0%R 0%R) /\ (0 <= 0.3 <= 1)%R
  /\ withinVec 1e-6 (oklabMix (V3 1%R 0%R 0%R) (V3 1%R 0%R 0%R) (Fin 0.3)) (V3 1%R 0%R 0%R).
Proof.
  assert (H : inGamut (V3 1%R 0%R 0%R)) by (unfold inGamut; simpl; lra).
  assert (Hh : (0 <= 0.3 <= 1)%R) by lra.
  split; [exact H |]. split; [exact Hh |]. exact (oklabMix_same _ 0.3 H Hh).
Defined.

(** X14.  Neutral colours stay neutral.  Mixing the grey of level [a] with
    the grey of level [b] at a ratio [h] between 0 and 1 gives, within [1e-7]
    in every channel, the grey whose level is the cube of the interpolated
    cube roots, which lies in the unit interval. *)
Theorem oklabMix_grey (a b h : R) :
  (0 <= a <= 1)%R -> (0 <= b <= 1)%R -> (0 <= h <= 1)%R ->
  (0 <= cube (lerp (cbrt a) (cbrt b) h) <= 1)%R
  /\ withinVec 1e-7
       (oklabMix (V3 (Fin a) (Fin a) (Fin a)) (V3 (Fin b) (Fin b) (Fin b)) (Fin h))
       (V3 (Fin (cube (lerp (cbrt a) (cbrt b) h)))
           (Fin (cube (lerp (cbrt a) (cbrt b) h)))
           (Fin (cube (lerp (cbrt a) (cbrt b) h)))).
Proof.
  intros Ha Hb Hh.
  assert (Ht : (0 <= cube (lerp (cbrt a) (cbrt b) h) <= 1)%R).
  { apply cube_unit, lerp_unit; [apply cbrt_le_one | apply cbrt_le_one |]; assumption. }
  split; [exact Ht |].
  rewrite oklabMix_Fin by lra.
  replace (cone0 a a a) with (a * 0.7123345137)%R by (unfold cone0; lra).
  replace (cone1 a a a) with (a * 1.4988415838)%R by (unfold cone1; lra).
  replace (cone2 a a a) with (a * 0.7891255059)%R by (unfold cone2; lra).
  replace (cone0 b b b) with (b * 0.7123345137)%R by (unfold cone0; lra).
  replace (cone1 b b b) with (b * 1.4988415838)%R by (unfold cone1; lra).
  replace (cone2 b b b) with (b * 0.7891255059)%R by (unfold cone2; lra).
  rewrite !blend_scale by lra.
  set (t := cube (lerp (cbrt a) (cbrt b) h)) in *.
  unfold withinVec, within; cbn [ix0 ix1 ix2]. unfold lin0, lin1, lin2.
  repeat split; apply Rabs_le; lra.
Qed.

Lemma oklabMix_grey_witness :
  (0 <= 0 <= 1)%R /\ (0 <= 1 <= 1)%R /\ (0 <= 0.5 <= 1)%R
  /\ (0 <= cube (lerp (cbrt 0) (cbrt 1) 0.5) <= 1)%R.
Proof.
  assert (Ha : (0 <= 0 <= 1)%R) by lra.
  assert (Hb : (0 <= 1 <= 1)%R) by lra.
  assert (Hh : (0 <= 0.5 <= 1)%R) by lra.
  split; [exact Ha |]. split; [exact Hb |]. split; [exact Hh |].
  exact (proj1 (oklabMix_grey 0 1 0.5 Ha Hb Hh)).
Defined.

(** ** The handler: what its sequences never contain, and its edges *)

Section SequenceFacts.

Local Open Scope R_scope.

Lemma generate_sequence_map (hs he m : Z) :
  generate_sequence hs he m
  = map (fun k => swatch (hexToLinearRGB (of_int hs)) (hexToLinearRGB (of_int he))
                    (m + 1) (Z.of_nat k))
        (seq 0 (Z.to_nat (m + 2))).
Proof.
  unfold generate_sequence.
  rewrite (loop_map _ _ _ (Z.to_nat (m + 2)) 0) by (f_equal; lia).
  apply map_ext. intros k. f_equal.
Qed.

Lemma in_generate_sequence (hs he m : Z) (s : Swatch) :
  In s (generate_sequence hs he m) ->
  exists i : Z,
    (0 <= i <= m + 1)%Z
    /\ s = swatch (hexToLinearRGB (of_int hs)) (hexToLinearRGB (of_int he)) (m + 1) i.
Proof.
  rewrite generate_sequence_map. intros H. apply in_map_iff in H as (k & <- & Hk).
  apply in_seq in Hk. exists (Z.of_nat k). split; [lia | reflexivity].
Qed.

Lemma decoded_mix_finite (hs he : Z) (h : R) :
  finiteVec (oklabMix (hexToLinearRGB (of_int hs)) (hexToLinearRGB (of_int he)) (Fin h)).
Proof.
  rewrite !hexToLinearRGB_Fin.
  pose proof (decoded_nonneg _ (redOf_byte (wrap32 hs))) as R1.
  pose proof (decoded_nonneg _ (greenOf_byte (wrap32 hs))) as G1.
  pose proof (decoded_nonneg _ (blueOf_byte (wrap32 hs))) as B1.
  pose proof (decoded_nonneg _ (redOf_byte (wrap32 he))) as R2.
  pose proof (decoded_nonneg _ (greenOf_byte (wrap32 he))) as G2.
  pose proof (decoded_nonneg _ (blueOf_byte (wrap32 he))) as B2.
  rewrite oklabMix_Fin by lra. do 3 eexists. reflexivity.
Qed.

(** A 24-bit colour mixed with itself packs to itself at every ratio. *)
Lemma mix_same_hex (hs : Z) (h : R) :
  (0 <= hs <= 0xFFFFFF)%Z ->
  linearRGBtoHex
    (oklabMix (hexToLinearRGB (of_int hs)) (hexToLinearRGB (of_int hs)) (Fin h)) = hs.
Proof.
  intros Hs. rewrite !hexToLinearRGB_Fin. rewrite (wrap32_small hs) by lia.
  pose proof (decoded_nonneg _ (redOf_byte hs)) as R1.
  pose proof (decoded_nonneg _ (greenOf_byte hs)) as G1.
  pose proof (decoded_nonneg _ (blueOf_byte hs)) as B1.
  rewrite oklabMix_Fin by lra.
  rewrite !blend_same by (apply cone_nonneg; lra).
  destruct (matrices_inverse _ _ _ R1 G1 B1) as (E0 & E1 & E2).
  rewrite linearRGBtoHex_Fin.
  rewrite (quantise_near (redOf hs)) by (exact (redOf_byte hs) || exact E0).
  rewrite (quantise_near (greenOf hs)) by (exact (greenOf_byte hs) || exact E1).
  rewrite (quantise_near (blueOf hs)) by (exact (blueOf_byte hs) || exact E2).
  rewrite pack_bytes by first
    [exact (redOf_byte hs) | exact (greenOf_byte hs) | exact (blueOf_byte hs)].
  apply bytes_of_hex. exact Hs.
Qed.

Lemma ratio_undefined : (of_int 0 / of_int 0)%js = NaN.
Proof. unfold of_int, div. rewrite !Reqb_true by reflexivity. reflexivity. Qed.

End SequenceFacts.

(** X15.  With a count that is not negative, whatever the two integers given
    as endpoints, no colour of the sequence has a channel that is [NaN] or
    infinite: the decoder only produces colours in gamut, so the cube root is
    never taken of a negative number. *)
Theorem sequence_colours_finite (hs he m : Z) :
  (0 <= m)%Z -> Forall (fun s => finiteVec (color s)) (generate_sequence hs he m).
Proof.
  intros Hm. apply Forall_forall. intros s Hs.
  apply in_generate_sequence in Hs as (i & Hi & ->).
  unfold swatch; cbn [color]. rewrite ratio_Fin by lia. apply decoded_mix_finite.
Qed.

Lemma sequence_colours_finite_witness :
  (0 <= 2)%Z
  /\ Forall (fun s => finiteVec (color s)) (generate_sequence 0xFF0000 0x0000FF 2).
Proof.
  assert (H : (0 <= 2)%Z) by lia.
  split; [exact H |]. exact (sequence_colours_finite 0xFF0000 0x0000FF 2 H).
Defined.

(** X16.  Negative counts.  From [-2] down the loop does not run, and the
    sequence is empty.  At [-1] it runs once with the ratio [0 / 0], which is
    [NaN]: whatever the endpoints, the single colour has three [NaN] channels,
    packs to [0] and prints as ["#000000"]. *)
Theorem negative_counts (hs he : Z) :
  (forall m : Z, (m <= -2)%Z -> generate_sequence hs he m = [])
  /\ exists s : Swatch,
       generate_sequence hs he (-1) = [s]
       /\ color s = V3 NaN NaN NaN
       /\ hexColor s = 0%Z
       /\ hexString s = "#000000".
Proof.
  split; [intros m Hm; apply sequence_of_negative; exact Hm |].
  unfold generate_sequence. change (-1 + 1)%Z with 0%Z.
  rewrite (loop_map _ _ _ 1 0) by reflexivity. cbn [seq map].
  change (0 + Z.of_nat 0)%Z with 0%Z.
  eexists. split; [reflexivity |].
  unfold swatch; cbn [color hexColor hexString].
  rewrite ratio_undefined, oklabMix_ratio_NaN, linearRGBtoHex_NaN.
  split; [reflexivity |]. split; [reflexivity |].
  rewrite hexToString_digits. reflexivity.
Qed.

(** X17.  A gradient from a 24-bit colour to itself is constant: with a count
    that is not negative, every colour of the sequence packs to that
    colour. *)
Theorem constant_gradient (hs m : Z) :
  (0 <= hs <= 0xFFFFFF)%Z -> (0 <= m)%Z ->
  Forall (fun s => hexColor s = hs) (generate_sequence hs hs m).
Proof.
  intros Hs Hm. apply Forall_forall. intros s H.
  apply in_generate_sequence in H as (i & Hi & ->).
  unfold swatch; cbn [hexColor]. rewrite ratio_Fin by lia.
  apply mix_same_hex. exact Hs.
Qed.

Lemma constant_gradient_witness :
  (0 <= 0x336699 <= 0xFFFFFF)%Z /\ (0 <= 3)%Z
  /\ Forall (fun s => hexColor s = 0x336699%Z) (generate_sequence 0x336699 0x336699 3).
Proof.
  assert (Hs : (0 <= 0x336699 <= 0xFFFFFF)%Z) by lia.
  assert (Hm : (0 <= 3)%Z) by lia.
  split; [exact Hs |]. split; [exact Hm |]. exact (constant_gradient 0x336699 3 Hs Hm).
Defined.

(** X18.  The handler throws exactly when one of its two strings is
    malformed, with the invalid-format message and before anything is
    logged; the count plays no part in it.  Otherwise it returns its log. *)
Theorem call_throws_iff (start end_ : string) (midpoints : option Z) :
  (call start end_ midpoints = Throw "Invalid hex color format."
   <-> wellFormed start = false \/ wellFormed end_ = false)
  /\ ((exists lines : list string, call start end_ midpoints = Ok lines)
      <-> wellFormed start = true /\ wellFormed end_ = true).
Proof.
  assert (E : call start end_ midpoints
              = if wellFormed start
                then if wellFormed end_
                     then call start end_ midpoints
                     else Throw "Invalid hex color format."
                else Throw "Invalid hex color format.").
  { unfold call. rewrite !stringToHex_parse. unfold parse_hex_string, InvalidFormat.
    destruct (wellFormed start); [| reflexivity].
    destruct (wellFormed end_); reflexivity. }
  assert (O : wellFormed start = true -> wellFormed end_ = true ->
              exists lines : list string, call start end_ midpoints = Ok lines).
  { intros Hs He. unfold call. rewrite !stringToHex_parse. unfold parse_hex_string.
    rewrite Hs, He. eexists. reflexivity. }
  destruct (wellFormed start) eqn:Hs; [destruct (wellFormed end_) eqn:He |].
  - destruct (O eq_refl eq_refl) as [lines Hl]. rewrite Hl. split; split.
    + intros H. discriminate H.
    + intros [H | H]; discriminate H.
    + intros _. auto.
    + intros _. eexists. reflexivity.
  - rewrite E. split; split.
    + intros _. auto.
    + intros _. reflexivity.
    + intros [lines H]. discriminate H.
    + intros [_ H]. discriminate H.
  - rewrite E. split; split.
    + intros _. auto.
    + intros _. reflexivity.
    + intros [lines H]. discriminate H.
    + intros [H _]. discriminate H.
Qed.

(** ** Interpolation and the logged line *)

Section MixEdges.

Lemma mul_zero_nonfinite (x : number) : (forall r : R, x <> Fin r) -> mul x (Fin 0) = NaN.
Proof.
  intros H. destruct x as [r | | |]; cbn [mul]; unfold scale_inf;
    rewrite ?Reqb_true by reflexivity; try reflexivity.
  destruct (H r). reflexivity.
Qed.

Lemma redOf_div (h : Z) : redOf h = ((h / 2 ^ 16) mod 256)%Z.
Proof.
  unfold redOf, sar, band. change (16 mod 32)%Z with 16%Z.
  change 255%Z with (Z.ones 8). rewrite Z.land_ones, Z.shiftr_div_pow2 by lia.
  reflexivity.
Qed.

Lemma greenOf_div (h : Z) : greenOf h = ((h / 2 ^ 8) mod 256)%Z.
Proof.
  unfold greenOf, sar, band. change (8 mod 32)%Z with 8%Z.
  change 255%Z with (Z.ones 8). rewrite Z.land_ones, Z.shiftr_div_pow2 by lia.
  reflexivity.
Qed.

Lemma blueOf_mod (h : Z) : blueOf h = (h mod 256)%Z.
Proof.
  unfold blueOf, band. change 255%Z with (Z.ones 8). rewrite Z.land_ones by lia.
  reflexivity.
Qed.

End MixEdges.

(** X19.  [mix] returns its first vector at ratio 0 and its second at ratio
    1 when both are finite.  It does so by multiplying the other vector by
    zero, not by skipping it: a channel of the second vector that is [NaN] or
    infinite makes the result [NaN] in that channel even at ratio 0. *)
Theorem mix_endpoints :
  (forall a b : Vec3, finiteVec a -> finiteVec b ->
     mix a b (Fin 0) = a /\ mix a b (Fin 1) = b)
  /\ (forall (a : Vec3) (x u v : number), (forall r : R, x <> Fin r) ->
        ix0 (mix a (V3 x u v) (Fin 0)) = NaN
        /\ ix1 (mix a (V3 u x v) (Fin 0)) = NaN
        /\ ix2 (mix a (V3 u v x) (Fin 0)) = NaN).
Proof.
  split.
  - intros a b (a0 & a1 & a2 & ->) (b0 & b1 & b2 & ->).
    unfold mix; cbn [ix0 ix1 ix2 sub add neg mul].
    split; f_equal; f_equal; lra.
  - intros a x u v H. unfold mix; cbn [ix0 ix1 ix2].
    rewrite (mul_zero_nonfinite x H), !add_NaN_r. auto.
Qed.

(** X20.  Every swatch shows one colour twice: the three decimal numbers of
    its colour block are the bytes of the packed colour, the hexadecimal text
    spells the same three bytes, two lowercase digits each, and this holds
    for packed values outside the 24-bit range too. *)
Theorem swatch_line_consistent (Start End : Vec3) (midpoints i : Z) :
  hexString (swatch Start End midpoints i)
  = String "#"
      (hexByte (redOf (hexColor (swatch Start End midpoints i)))
      (hexByte (greenOf (hexColor (swatch Start End midpoints i)))
      (hexByte (blueOf (hexColor (swatch Start End midpoints i))) "")))
  /\ ansiBlock (swatch Start End midpoints i)
     = esc ++ "[48;2;"
         ++ toString10 (redOf (hexColor (swatch Start End midpoints i))) ++ ";"
         ++ toString10 (greenOf (hexColor (swatch Start End midpoints i))) ++ ";"
         ++ toString10 (blueOf (hexColor (swatch Start End midpoints i)))
         ++ "m    " ++ esc ++ "[0m"
  /\ (0 <= redOf (hexColor (swatch Start End midpoints i)) <= 255)%Z
  /\ (0 <= greenOf (hexColor (swatch Start End midpoints i)) <= 255)%Z
  /\ (0 <= blueOf (hexColor (swatch Start End midpoints i)) <= 255)%Z.
Proof.
  unfold swatch; cbn [hexString hexColor ansiBlock].
  set (h := linearRGBtoHex _). clearbody h.
  split; [| split; [unfold redOf, greenOf, blueOf; reflexivity |]].
  - rewrite hexToString_digits, redOf_div, greenOf_div, blueOf_mod. reflexivity.
  - split; [apply redOf_byte | split; [apply greenOf_byte | apply blueOf_byte]].
Qed.

(** ** A valid gradient that leaves the gamut *)

Section OutOfGamut.

Local Open Scope R_scope.

Lemma decode_green : hexToLinearRGB (of_int 0x00FF00) = V3 0 1 0.
Proof.
  rewrite hexToLinearRGB_Fin.
  change (redOf (wrap32 0x00FF00)) with 0%Z.
  change (greenOf (wrap32 0x00FF00)) with 255%Z.
  change (blueOf (wrap32 0x00FF00)) with 0%Z.
  rewrite srgb_decode_zero, srgb_decode_one. reflexivity.
Qed.

(** Red and green mixed half and half: the blue channel comes out negative. *)
Lemma red_green_half_blue :
  exists r g b : R,
    oklabMix (V3 1 0 0) (V3 0 1 0) (Fin (1 / 2)) = V3 (Fin r) (Fin g) (Fin b)
    /\ 0.45871 <= r <= 0.45875 /\ 0.53132 <= g <= 0.53137
    /\ -0.00737 <= b <= -0.00735.
Proof.
  rewrite oklabMix_Fin by lra.
  assert (L : 0.300991 <= blend (cone0 1 0 0) (cone0 0 1 0) (1 / 2) <= 0.300997).
  { pose proof (blend_half_between (cone0 1 0 0) (cone0 0 1 0)
                  0.744200 0.744203 0.596140 0.596143) as H.
    unfold cone0 in *.
    destruct H as [H1 H2]; first [lra | apply cbrt_between; lra]. }
  assert (M : 0.605625 <= blend (cone1 1 0 0) (cone1 0 1 0) (1 / 2) <= 0.605633).
  { pose proof (blend_half_between (cone1 1 0 0) (cone1 0 1 0)
                  0.812447 0.812450 0.879674 0.879677) as H.
    unfold cone1 in *.
    destruct H as [H1 H2]; first [lra | apply cbrt_between; lra]. }
  assert (S : 0.076034 <= blend (cone2 1 0 0) (cone2 0 1 0) (1 / 2) <= 0.076036).
  { pose proof (blend_half_between (cone2 1 0 0) (cone2 0 1 0)
                  0.371947 0.371950 0.475345 0.475348) as H.
    unfold cone2 in *.
    destruct H as [H1 H2]; first [lra | apply cbrt_between; lra]. }
  set (l := blend (cone0 1 0 0) (cone0 0 1 0) (1 / 2)) in *.
  set (m := blend (cone1 1 0 0) (cone1 0 1 0) (1 / 2)) in *.
  set (s := blend (cone2 1 0 0) (cone2 0 1 0) (1 / 2)) in *.
  exists (lin0 l m s), (lin1 l m s), (lin2 l m s).
  split; [reflexivity |]. unfold lin0, lin1, lin2. repeat split; lra.
Qed.

Lemma red_green_half : linearRGBtoHex (oklabMix (V3 1 0 0) (V3 0 1 0) (Fin (1 / 2))) = (-23)%Z.
Proof.
  destruct red_green_half_blue as (r & g & b & -> & Hr & Hg & Hb).
  rewrite linearRGBtoHex_Fin.
  rewrite (quantise_between r 0.45871 0.45875 0.7227 0.7228 180);
    [| lra | lra | lra | lra | lra | lra | lra | lia].
  rewrite (quantise_between g 0.53132 0.53137 0.7683 0.7684 193);
    [| lra | lra | lra | lra | lra | lra | lra | lia].
  assert (E : trunc (srgb_encode b * 255 + 0.5) = (-23)%Z).
  { unfold srgb_encode. rewrite Rleb_true by lra. apply trunc_neg; lra. }
  rewrite E. vm_compute. reflexivity.
Qed.

End OutOfGamut.

(** X21.  The missing clamp is reachable from valid input.  From ["#FF0000"]
    to ["#00FF00"] with the default count, the blue channel of the midpoint
    is negative; it rounds to [-23], whose sign bits overwrite the red and
    green bytes when the channels are packed, and the handler logs
    ["#ffffe9"] between ["#ff0000"] and ["#00ff00"]. *)
Theorem red_green_midpoint_unclamped :
  stringToHex "#FF0000" = Ok (of_int 0xFF0000)
  /\ stringToHex "#00FF00" = Ok (of_int 0x00FF00)
  /\ call "#FF0000" "#00FF00" None
     = Ok (preamble "#FF0000" "#00FF00" 1
           ++ map swatchLine (generate_sequence 0xFF0000 0x00FF00 1))%list
  /\ (exists r g b : R,
        map color (generate_sequence 0xFF0000 0x00FF00 1)
        = [oklabMix (V3 1%R 0%R 0%R) (V3 0%R 1%R 0%R) (Fin 0);
           V3 (Fin r) (Fin g) (Fin b);
           oklabMix (V3 1%R 0%R 0%R) (V3 0%R 1%R 0%R) (Fin 1)]
        /\ (b < 0)%R)
  /\ map hexColor (generate_sequence 0xFF0000 0x00FF00 1) = [0xFF0000; -23; 0x00FF00]%Z
  /\ map hexString (generate_sequence 0xFF0000 0x00FF00 1)
     = ["#ff0000"; "#ffffe9"; "#00ff00"].
Proof.
  assert (Hs : stringToHex "#FF0000" = Ok (of_int 0xFF0000)) by (vm_compute; reflexivity).
  assert (He : stringToHex "#00FF00" = Ok (of_int 0x00FF00)) by (vm_compute; reflexivity).
  assert (Hx : map hexColor (generate_sequence 0xFF0000 0x00FF00 1)
               = [0xFF0000; -23; 0x00FF00]%Z).
  { rewrite sequence_of_one. cbn [map]. rewrite !hexColor_swatch.
    rewrite color_middle, color_first, (color_last _ _ 2) by lia.
    rewrite mix_start_hex, mix_end_hex by lia.
    rewrite decode_red, decode_green, red_green_half. reflexivity. }
  split; [exact Hs |]. split; [exact He |].
  split; [rewrite call_default; apply call_ok; assumption |].
  split; [| split; [exact Hx |]].
  - destruct red_green_half_blue as (r & g & b & E & _ & _ & Hb).
    exists r, g, b. split; [| lra].
    rewrite sequence_of_one. cbn [map].
    rewrite color_middle, color_first, (color_last _ _ 2) by lia.
    rewrite decode_red, decode_green, E. reflexivity.
  - rewrite (hexString_of_hexColor _ _ (sequence_hexStrings _ _) Hx).
    cbn [map]. rewrite !hexToString_digits. reflexivity.
Qed.
